(** * Drone structural inspection controller

    A shallow embedding of [controllers/drone_inspector/drone_inspector.py]:
    the helpers ([clamp], [normalize_angle], [decompose_displacement]), the
    configuration loader, the local variables of [main] as an explicit state
    record, one iteration of the main loop as the function [step], and the
    motor mixing that closes every iteration.

    Python floats are idealised as real numbers: [math.pi] is [PI],
    [math.cos] and [math.sin] are [cos] and [sin], and arithmetic is exact.
    Integers that only count (image numbers, list indices) are [nat]. *)

From Stdlib Require Import Reals Lra Lia List ZArith String Bool Sorted.
From Stdlib Require Import Ascii DecimalNat DecimalString.
From Equations Require Import Equations.
Import ListNotations.
Open Scope R_scope.

(* ------------------------------------------------------------------ *)
(** ** Helpers *)

(** [clamp(value, low, high) = max(low, min(value, high))]. *)
Definition clamp (value low high : R) : R := Rmax low (Rmin value high).

Definition two_pi : R := 2 * PI.

(** Number of iterations left in the first loop of [normalize_angle]; it
    only serves as the termination measure of [wrap_down]. *)
Definition turns_above (angle : R) : nat :=
  Z.to_nat (up ((angle - PI) / two_pi)).

(** Number of iterations left in the second loop of [normalize_angle]. *)
Definition turns_below (angle : R) : nat :=
  Z.to_nat (up ((- PI - angle) / two_pi)).

Lemma up_pred (x : R) : up (x - 1) = (up x - 1)%Z.
Proof.
  symmetry; apply tech_up; rewrite minus_IZR;
    destruct (archimed x); simpl; lra.
Qed.

Lemma up_pos (x : R) : 0 < x -> (0 < up x)%Z.
Proof.
  intros Hx. destruct (archimed x) as [Hu _].
  apply lt_IZR; simpl; lra.
Qed.

Lemma turns_above_decr (angle : R) :
  angle > PI -> (turns_above (angle - two_pi) < turns_above angle)%nat.
Proof.
  intros Hgt. unfold turns_above, two_pi.
  pose proof PI_RGT_0 as Hpi.
  replace ((angle - 2 * PI - PI) / (2 * PI))
    with ((angle - PI) / (2 * PI) - 1) by (field; lra).
  rewrite up_pred.
  assert (0 < up ((angle - PI) / (2 * PI)))%Z
    by (apply up_pos, Rdiv_lt_0_compat; lra).
  lia.
Qed.

Lemma turns_below_decr (angle : R) :
  angle < - PI -> (turns_below (angle + two_pi) < turns_below angle)%nat.
Proof.
  intros Hlt. unfold turns_below, two_pi.
  pose proof PI_RGT_0 as Hpi.
  replace ((- PI - (angle + 2 * PI)) / (2 * PI))
    with ((- PI - angle) / (2 * PI) - 1) by (field; lra).
  rewrite up_pred.
  assert (0 < up ((- PI - angle) / (2 * PI)))%Z
    by (apply up_pos, Rdiv_lt_0_compat; lra).
  lia.
Qed.

(** [while angle > math.pi: angle -= 2 * math.pi] *)
Equations wrap_down (angle : R) : R by wf (turns_above angle) lt :=
  wrap_down angle with Rgt_dec angle PI := {
    | left _ => wrap_down (angle - two_pi)
    | right _ => angle }.
Next Obligation. apply turns_above_decr; assumption. Qed.

(** [while angle < -math.pi: angle += 2 * math.pi] *)
Equations wrap_up (angle : R) : R by wf (turns_below angle) lt :=
  wrap_up angle with Rlt_dec angle (- PI) := {
    | left _ => wrap_up (angle + two_pi)
    | right _ => angle }.
Next Obligation. apply turns_below_decr; assumption. Qed.

(** [normalize_angle]: the two loops in sequence. *)
Definition normalize_angle (angle : R) : R := wrap_up (wrap_down angle).

(** [decompose_displacement(dx, dy, heading)] returns [(forward, right)]. *)
Definition decompose_displacement (dx dy heading : R) : R * R :=
  let cos_h := cos heading in
  let sin_h := sin heading in
  let forward := dx * cos_h + dy * sin_h in
  let right := dx * sin_h - dy * cos_h in
  (forward, right).

(* ------------------------------------------------------------------ *)
(** ** Flight states *)

Inductive FlightState : Set :=
  | TAKEOFF | STABILIZE
  | SIDE_1 | TURN_1 | SIDE_2 | TURN_2 | SIDE_3 | TURN_3 | SIDE_4
  | LAND | DONE.

Definition FlightState_eq_dec (a b : FlightState) : {a = b} + {a <> b}.
Proof. decide equality. Defined.

(** [state in (SIDE_1, SIDE_2, SIDE_3, SIDE_4)] *)
Definition is_side (st : FlightState) : bool :=
  match st with
  | SIDE_1 | SIDE_2 | SIDE_3 | SIDE_4 => true
  | _ => false
  end.

(** [state in (TURN_1, TURN_2, TURN_3)] *)
Definition is_turn (st : FlightState) : bool :=
  match st with
  | TURN_1 | TURN_2 | TURN_3 => true
  | _ => false
  end.

(* ------------------------------------------------------------------ *)
(** ** Configuration *)

(** The dictionary that [json.load] returns, restricted to numeric values,
    as an association list: the first binding of a key is the one the
    dictionary holds. *)
Definition Config : Type := list (string * R).

Fixpoint lookup (key : string) (cfg : Config) : option R :=
  match cfg with
  | [] => None
  | (k, v) :: rest => if String.eqb k key then Some v else lookup key rest
  end.

Inductive Exception : Set := KeyError | TypeError | IndexError.

(** The dictionary [load_config] returns on [FileNotFoundError]. *)
Definition default_config : Config :=
  [ ("building_length"%string, 20);
    ("building_breadth"%string, 10);
    ("building_height"%string, 8) ].

(** [load_config]: the argument is the parsed content of [config.json],
    or [None] when opening the file raises [FileNotFoundError]. *)
Definition load_config (file : option Config) : Config :=
  match file with
  | Some cfg => cfg
  | None => default_config
  end.

(* ------------------------------------------------------------------ *)
(** ** The variables of [main] *)

(** A GPS reading [[x, y, z]]. *)
Record Position : Type := mkPosition { pos_x : R; pos_y : R; pos_z : R }.

Definition IMAGES_PER_SIDE : nat := 4.

Definition K_VERTICAL_THRUST : R := 68.5.
Definition K_VERTICAL_OFFSET : R := 0.6.
Definition K_VERTICAL_P : R := 3.
Definition K_ROLL_P : R := 50.
Definition K_PITCH_P : R := 30.
Definition STRAFE_SPEED : R := 1.
Definition ANGLE_TOLERANCE : R := 0.05.
Definition STABILIZE_TIME : R := 3.
Definition K_FORWARD_CORRECTION : R := 3.
Definition CAMERA_TILT : R := 0.3.

Record State : Type := mkState {
  state : FlightState;
  state_start_pos : option Position;
  target_yaw : R;
  current_side_distance : R;
  side_distances : list R;
  side_index : nat;
  accumulated_yaw : R;
  stabilize_start_time : option R;
  target_altitude : R;
  image_counter : nat;
  capture_distances : list R;
  images_taken_this_side : nat
}.

Definition set_state (v : FlightState) (s : State) : State :=
  mkState v (state_start_pos s) (target_yaw s) (current_side_distance s)
    (side_distances s) (side_index s) (accumulated_yaw s)
    (stabilize_start_time s) (target_altitude s) (image_counter s)
    (capture_distances s) (images_taken_this_side s).

Definition set_state_start_pos (v : option Position) (s : State) : State :=
  mkState (state s) v (target_yaw s) (current_side_distance s)
    (side_distances s) (side_index s) (accumulated_yaw s)
    (stabilize_start_time s) (target_altitude s) (image_counter s)
    (capture_distances s) (images_taken_this_side s).

Definition set_target_yaw (v : R) (s : State) : State :=
  mkState (state s) (state_start_pos s) v (current_side_distance s)
    (side_distances s) (side_index s) (accumulated_yaw s)
    (stabilize_start_time s) (target_altitude s) (image_counter s)
    (capture_distances s) (images_taken_this_side s).

Definition set_current_side_distance (v : R) (s : State) : State :=
  mkState (state s) (state_start_pos s) (target_yaw s) v
    (side_distances s) (side_index s) (accumulated_yaw s)
    (stabilize_start_time s) (target_altitude s) (image_counter s)
    (capture_distances s) (images_taken_this_side s).

Definition set_side_index (v : nat) (s : State) : State :=
  mkState (state s) (state_start_pos s) (target_yaw s)
    (current_side_distance s) (side_distances s) v (accumulated_yaw s)
    (stabilize_start_time s) (target_altitude s) (image_counter s)
    (capture_distances s) (images_taken_this_side s).

Definition set_accumulated_yaw (v : R) (s : State) : State :=
  mkState (state s) (state_start_pos s) (target_yaw s)
    (current_side_distance s) (side_distances s) (side_index s) v
    (stabilize_start_time s) (target_altitude s) (image_counter s)
    (capture_distances s) (images_taken_this_side s).

Definition set_stabilize_start_time (v : option R) (s : State) : State :=
  mkState (state s) (state_start_pos s) (target_yaw s)
    (current_side_distance s) (side_distances s) (side_index s)
    (accumulated_yaw s) v (target_altitude s) (image_counter s)
    (capture_distances s) (images_taken_this_side s).

Definition set_target_altitude (v : R) (s : State) : State :=
  mkState (state s) (state_start_pos s) (target_yaw s)
    (current_side_distance s) (side_distances s) (side_index s)
    (accumulated_yaw s) (stabilize_start_time s) v (image_counter s)
    (capture_distances s) (images_taken_this_side s).

Definition set_image_counter (v : nat) (s : State) : State :=
  mkState (state s) (state_start_pos s) (target_yaw s)
    (current_side_distance s) (side_distances s) (side_index s)
    (accumulated_yaw s) (stabilize_start_time s) (target_altitude s) v
    (capture_distances s) (images_taken_this_side s).

Definition set_capture_distances (v : list R) (s : State) : State :=
  mkState (state s) (state_start_pos s) (target_yaw s)
    (current_side_distance s) (side_distances s) (side_index s)
    (accumulated_yaw s) (stabilize_start_time s) (target_altitude s)
    (image_counter s) v (images_taken_this_side s).

Definition set_images_taken_this_side (v : nat) (s : State) : State :=
  mkState (state s) (state_start_pos s) (target_yaw s)
    (current_side_distance s) (side_distances s) (side_index s)
    (accumulated_yaw s) (stabilize_start_time s) (target_altitude s)
    (image_counter s) (capture_distances s) v.

(* ------------------------------------------------------------------ *)
(** ** Control flow of one loop iteration *)

(** An iteration of the main loop either runs to its end, leaves the loop
    with [break], or raises. *)
Inductive Outcome (A : Type) : Type :=
  | Continue (a : A)
  | Break
  | Raise (e : Exception).

Arguments Continue {A} a.
Arguments Break {A}.
Arguments Raise {A} e.

Definition bind {A B : Type} (m : Outcome A) (f : A -> Outcome B) : Outcome B :=
  match m with
  | Continue a => f a
  | Break => Break
  | Raise e => Raise e
  end.

Notation "x <- m ;; k" := (bind m (fun x => k))
  (at level 61, m at next level, right associativity).
Notation "' p <- m ;; k" := (bind m (fun x => let 'p := x in k))
  (at level 61, p pattern, m at next level, right associativity).

(** Subscripting [None] raises [TypeError], as does arithmetic on it. *)
Definition defined {A : Type} (o : option A) : Outcome A :=
  match o with
  | Some a => Continue a
  | None => Raise TypeError
  end.

(** [l[i]] on a Python list, for a non-negative index. *)
Definition subscript {A : Type} (l : list A) (i : nat) : Outcome A :=
  match nth_error l i with
  | Some a => Continue a
  | None => Raise IndexError
  end.

(** [cfg[key]] on a dictionary. *)
Definition getitem (cfg : Config) (key : string) : Outcome R :=
  match lookup key cfg with
  | Some v => Continue v
  | None => Raise KeyError
  end.

(* ------------------------------------------------------------------ *)
(** ** Sensors and actuators *)

Record Sensors : Type := mkSensors {
  time : R;               (* robot.getTime() *)
  roll : R;               (* imu.getRollPitchYaw()[0] *)
  pitch : R;              (* imu.getRollPitchYaw()[1] *)
  yaw : R;                (* get_yaw(imu) *)
  roll_velocity : R;      (* gyro.getValues()[0] *)
  pitch_velocity : R;     (* gyro.getValues()[1] *)
  gps_pos : Position      (* gps.getValues() *)
}.

(** [altitude = gps.getValues()[2]] *)
Definition altitude (sn : Sensors) : R := pos_z (gps_pos sn).

Record Disturbance : Type := mkDisturbance {
  roll_disturbance : R;
  pitch_disturbance : R;
  yaw_disturbance : R
}.

(** What one iteration writes: the four [setVelocity] arguments in the
    order of [motors], the two gimbal positions, and the number of the
    image saved in this iteration, if any. *)
Record Outputs : Type := mkOutputs {
  motor_velocities : list R;
  camera_roll_position : R;
  camera_pitch_position : R;
  saved_image : option nat
}.

(* ------------------------------------------------------------------ *)
(** ** Capture scheduling *)

(** [begin_side(side_dist, gps_position)] *)
Definition begin_side (side_dist : R) (gps_position : Position) (s : State)
  : State :=
  let s := set_state_start_pos (Some gps_position) s in
  let s := set_current_side_distance side_dist s in
  let s := set_images_taken_this_side 0 s in
  set_capture_distances
    (map (fun i => side_dist * INR (i + 1) / INR IMAGES_PER_SIDE)
         (seq 0 IMAGES_PER_SIDE))
    s.

(** The distance-based image capture of a [SIDE_*] iteration, which the
    specification calls [on_progress].  The result carries the number of
    the image saved, if one was. *)
Definition on_progress (distance_traveled : R) (s : State)
  : Outcome (State * option nat) :=
  if (images_taken_this_side s <? IMAGES_PER_SIDE)%nat then
    threshold <- subscript (capture_distances s) (images_taken_this_side s) ;;
    if Rge_dec distance_traveled threshold then
      let s := set_image_counter (image_counter s + 1) s in
      let s := set_images_taken_this_side (images_taken_this_side s + 1) s in
      Continue (s, Some (image_counter s))
    else Continue (s, None)
  else Continue (s, None).

(* ------------------------------------------------------------------ *)
(** ** The state machine *)

(** The body of [if distance_traveled >= current_side_distance]. *)
Definition complete_side (s : State) : State :=
  match state s with
  | SIDE_1 =>
      let s := set_accumulated_yaw (accumulated_yaw s + PI / 2) s in
      let s := set_target_yaw (accumulated_yaw s) s in
      set_state TURN_1 s
  | SIDE_2 =>
      let s := set_accumulated_yaw (accumulated_yaw s + PI / 2) s in
      let s := set_target_yaw (accumulated_yaw s) s in
      set_state TURN_2 s
  | SIDE_3 =>
      let s := set_accumulated_yaw (accumulated_yaw s + PI / 2) s in
      let s := set_target_yaw (accumulated_yaw s) s in
      set_state TURN_3 s
  | SIDE_4 => set_state LAND s
  | _ => s
  end.

(** The body of [if abs(yaw_error) < ANGLE_TOLERANCE]. *)
Definition complete_turn (gps : Position) (s : State) : Outcome State :=
  let s :=
    match state s with
    | TURN_1 => set_state SIDE_2 (set_side_index 1 s)
    | TURN_2 => set_state SIDE_3 (set_side_index 2 s)
    | TURN_3 => set_state SIDE_4 (set_side_index 3 s)
    | _ => s
    end in
  side_dist <- subscript (side_distances s) (side_index s) ;;
  Continue (begin_side side_dist gps s).

(** The [if state == ... elif ...] chain.  The result is the state after
    the chain, the three disturbances and the image saved, if any. *)
Definition state_machine (s : State) (sn : Sensors)
  : Outcome (State * Disturbance * option nat) :=
  match state s with
  | TAKEOFF =>
      let s :=
        if Rgt_dec (altitude sn) (target_altitude s - 0.3)
        then set_stabilize_start_time (Some (time sn)) (set_state STABILIZE s)
        else s in
      Continue (s, mkDisturbance 0 0 0, None)
  | STABILIZE =>
      start <- defined (stabilize_start_time s) ;;
      if Rgt_dec (time sn - start) STABILIZE_TIME then
        let s := set_side_index 0 (set_state SIDE_1 s) in
        side_dist <- subscript (side_distances s) 0 ;;
        Continue (begin_side side_dist (gps_pos sn) s, mkDisturbance 0 0 0, None)
      else Continue (s, mkDisturbance 0 0 0, None)
  | SIDE_1 | SIDE_2 | SIDE_3 | SIDE_4 =>
      let roll_d := - STRAFE_SPEED in
      origin <- defined (state_start_pos s) ;;
      let dx := pos_x (gps_pos sn) - pos_x origin in
      let dy := pos_y (gps_pos sn) - pos_y origin in
      let '(forward_drift, lateral_distance) :=
        decompose_displacement dx dy (accumulated_yaw s) in
      let pitch_d := K_FORWARD_CORRECTION * forward_drift in
      let yaw_error := normalize_angle (accumulated_yaw s - yaw sn) in
      let yaw_d := 2 * yaw_error in
      let distance_traveled := Rabs lateral_distance in
      '(s, image) <- on_progress distance_traveled s ;;
      let s :=
        if Rge_dec distance_traveled (current_side_distance s)
        then complete_side s
        else s in
      Continue (s, mkDisturbance roll_d pitch_d yaw_d, image)
  | TURN_1 | TURN_2 | TURN_3 =>
      let yaw_error := normalize_angle (target_yaw s - yaw sn) in
      let yaw_d := 2 * yaw_error in
      s <- (if Rlt_dec (Rabs yaw_error) ANGLE_TOLERANCE
            then complete_turn (gps_pos sn) s
            else Continue s) ;;
      Continue (s, mkDisturbance 0 0 yaw_d, None)
  | LAND =>
      let s := set_target_altitude (Rmax 0 (target_altitude s - 0.005)) s in
      let s := if Rlt_dec (altitude sn) 0.3 then set_state DONE s else s in
      Continue (s, mkDisturbance 0 0 0, None)
  | DONE => Break
  end.

(* ------------------------------------------------------------------ *)
(** ** Motor control *)

(** [K_VERTICAL_P * clamp(target_altitude - altitude + K_VERTICAL_OFFSET,
    -1.0, 1.0) ** 3] *)
Definition vertical_input (target altitude_now : R) : R :=
  let clamped_alt_diff :=
    clamp (target - altitude_now + K_VERTICAL_OFFSET) (-1) 1 in
  K_VERTICAL_P * clamped_alt_diff ^ 3.

(** The four values handed to [setVelocity], in the order of [motors]. *)
Definition motor_control (target : R) (sn : Sensors) (d : Disturbance)
  : list R :=
  let roll_input :=
    K_ROLL_P * clamp (roll sn) (-1) 1 + roll_velocity sn + roll_disturbance d in
  let pitch_input :=
    K_PITCH_P * clamp (pitch sn) (-1) 1 + pitch_velocity sn
    + pitch_disturbance d in
  let yaw_input := yaw_disturbance d in
  let vertical := vertical_input target (altitude sn) in
  let fl := K_VERTICAL_THRUST + vertical - roll_input + pitch_input - yaw_input in
  let fr := K_VERTICAL_THRUST + vertical + roll_input + pitch_input + yaw_input in
  let rl := K_VERTICAL_THRUST + vertical - roll_input - pitch_input + yaw_input in
  let rr := K_VERTICAL_THRUST + vertical + roll_input - pitch_input - yaw_input in
  [fl; - fr; - rl; rr].

(** One iteration of the main loop: gimbal, state machine, motor control.
    The LED blinking neither reads nor writes the state and is left out. *)
Definition step (s : State) (sn : Sensors) : Outcome (State * Outputs) :=
  '(s, d, image) <- state_machine s sn ;;
  Continue (s,
            mkOutputs (motor_control (target_altitude s) sn d)
                      (- 0.115 * roll_velocity sn)
                      (- 0.1 * pitch_velocity sn + CAMERA_TILT)
                      image).

(* ------------------------------------------------------------------ *)
(** ** Start-up and runs *)

(** The variables of [main] as they stand when the sensor warm-up loop
    begins. *)
Definition startup (file : option Config) : Outcome State :=
  let config := load_config file in
  building_length <- getitem config "building_length" ;;
  building_breadth <- getitem config "building_breadth" ;;
  building_height <- getitem config "building_height" ;;
  let target := building_height / 2 in
  Continue
    {| state := TAKEOFF;
       state_start_pos := None;
       target_yaw := 0;
       current_side_distance := 0;
       side_distances :=
         [building_length; building_breadth; building_length; building_breadth];
       side_index := 0;
       accumulated_yaw := 0;
       stabilize_start_time := None;
       target_altitude := target;
       image_counter := 0;
       capture_distances := [];
       images_taken_this_side := 0 |}.

(** [accumulated_yaw = initial_yaw], after the warm-up. *)
Definition calibrate (initial_yaw : R) (s : State) : State :=
  set_accumulated_yaw initial_yaw s.

(** The state in which the main loop is entered. *)
Definition main_init (file : option Config) (initial_yaw : R) : Outcome State :=
  s <- startup file ;;
  Continue (calibrate initial_yaw s).

(** The iterations of the main loop on a finite stream of sensor readings:
    the state and the outputs at the end of each completed iteration.  The
    loop ends on [break], on an exception, or when the readings end
    ([robot.step] returns [-1]). *)
Fixpoint run (s : State) (inputs : list Sensors) : list (State * Outputs) :=
  match inputs with
  | [] => []
  | sn :: rest =>
      match step s sn with
      | Continue (s', out) => (s', out) :: run s' rest
      | Break => []
      | Raise _ => []
      end
  end.

(** The flight states at the start of the loop and after each iteration. *)
Definition phases (s : State) (inputs : list Sensors) : list FlightState :=
  state s :: map (fun so => state (fst so)) (run s inputs).

(** The numbers of the images saved during a run, in order. *)
Definition images_saved (s : State) (inputs : list Sensors) : list nat :=
  flat_map (fun so => match saved_image (snd so) with
                      | Some n => [n]
                      | None => []
                      end) (run s inputs).

(** The states the main loop can be in at the top of an iteration. *)
Inductive Reachable : State -> Prop :=
  | Reachable_init : forall file initial_yaw s,
      main_init file initial_yaw = Continue s -> Reachable s
  | Reachable_step : forall s sn s' out,
      Reachable s -> step s sn = Continue (s', out) -> Reachable s'.

(* ------------------------------------------------------------------ *)
(** ** Vocabulary of the properties *)

(** The state after a capture: both counters advanced by one. *)
Definition fired (s : State) : State :=
  set_images_taken_this_side (images_taken_this_side s + 1)
    (set_image_counter (image_counter s + 1) s).

(** The condition of the capture branch: fewer than [IMAGES_PER_SIDE]
    captures on this side, and the distance has reached the next
    threshold. *)
Definition capture_due (d : R) (s : State) : Prop :=
  (images_taken_this_side s < IMAGES_PER_SIDE)%nat /\
  exists threshold,
    nth_error (capture_distances s) (images_taken_this_side s) = Some threshold
    /\ d >= threshold.

(** The captures fired by a sequence of progress reports on one side: for
    each, the reported distance, the index of the threshold that fired and
    the number of the image. *)
Fixpoint reports (s : State) (ds : list R) : list (R * nat * nat) :=
  match ds with
  | [] => []
  | d :: rest =>
      match on_progress d s with
      | Continue (s', Some n) => (d, images_taken_this_side s, n) :: reports s' rest
      | Continue (s', None) => reports s' rest
      | _ => []
      end
  end.

(** The distance along the current side that a [SIDE_*] iteration derives
    from the GPS reading: [abs(lateral_distance)]. *)
Definition distance_traveled (s : State) (sn : Sensors) : R :=
  match state_start_pos s with
  | Some origin =>
      Rabs (snd (decompose_displacement
                   (pos_x (gps_pos sn) - pos_x origin)
                   (pos_y (gps_pos sn) - pos_y origin)
                   (accumulated_yaw s)))
  | None => 0
  end.

(** The state a completed turn hands to the next side. *)
Definition next_side (index : nat) (phase : FlightState) (sn : Sensors)
    (s s' : State) : Prop :=
  exists side_dist,
    nth_error (side_distances s) index = Some side_dist
    /\ s' = begin_side side_dist (gps_pos sn)
              (set_state phase (set_side_index index s)).

(** The chain [TAKEOFF -> STABILIZE -> SIDE_1 -> TURN_1 -> ... -> SIDE_4 ->
    LAND -> DONE]. *)
Definition successor (p : FlightState) : option FlightState :=
  match p with
  | TAKEOFF => Some STABILIZE
  | STABILIZE => Some SIDE_1
  | SIDE_1 => Some TURN_1
  | TURN_1 => Some SIDE_2
  | SIDE_2 => Some TURN_2
  | TURN_2 => Some SIDE_3
  | SIDE_3 => Some TURN_3
  | TURN_3 => Some SIDE_4
  | SIDE_4 => Some LAND
  | LAND => Some DONE
  | DONE => None
  end.

(** Position in the chain. *)
Definition rank (p : FlightState) : nat :=
  match p with
  | TAKEOFF => 0
  | STABILIZE => 1
  | SIDE_1 => 2
  | TURN_1 => 3
  | SIDE_2 => 4
  | TURN_2 => 5
  | SIDE_3 => 6
  | TURN_3 => 7
  | SIDE_4 => 8
  | LAND => 9
  | DONE => 10
  end.

(** One iteration may stay in a state or move to its successor. *)
Definition advance (p q : FlightState) : Prop :=
  q = p \/ successor p = Some q.

(** Not later in the chain. *)
Definition rank_le (p q : FlightState) : Prop := (rank p <= rank q)%nat.

(** The state in which the main loop starts when [config.json] is absent
    and the drone faces along the x axis. *)
Definition default_state : State :=
  {| state := TAKEOFF;
     state_start_pos := None;
     target_yaw := 0;
     current_side_distance := 0;
     side_distances := [20; 10; 20; 10];
     side_index := 0;
     accumulated_yaw := 0;
     stabilize_start_time := None;
     target_altitude := 8 / 2;
     image_counter := 0;
     capture_distances := [];
     images_taken_this_side := 0 |}.

(** [TAKEOFF] and [STABILIZE]: the states before the first side. *)
Definition before_sides (p : FlightState) : bool :=
  match p with
  | TAKEOFF | STABILIZE => true
  | _ => false
  end.

(** What holds at the top of every iteration of the main loop: the plan
    has four sides, at most four images were taken on the current side,
    the settle timer is set in [STABILIZE], and the side origin and the
    capture distances are unset before the first side and set from then
    on. *)
Record Invariant (s : State) : Prop := {
  inv_side_distances : List.length (side_distances s) = 4%nat;
  inv_images_taken : (images_taken_this_side s <= IMAGES_PER_SIDE)%nat;
  inv_stabilize :
    state s = STABILIZE -> stabilize_start_time s <> None;
  inv_before :
    before_sides (state s) = true ->
    state_start_pos s = None /\ capture_distances s = [];
  inv_after :
    before_sides (state s) = false ->
    state_start_pos s <> None
    /\ List.length (capture_distances s) = IMAGES_PER_SIDE
}.

(** A sensor reading with the drone level and at rest. *)
Definition reading (t heading x y z : R) : Sensors :=
  mkSensors t 0 0 heading 0 0 (mkPosition x y z).

(** Readings that take the drone once around the 20 by 10 building: each
    one is taken at the moment the current flight state can be left. *)
Definition flight_readings : list Sensors :=
  [ reading 2 0 0 0 4;               (* at altitude *)
    reading 6 0 0 0 4;               (* settled *)
    reading 30 0 0 (-20) 4;          (* end of side 1 *)
    reading 35 (PI / 2) 0 (-20) 4;   (* turned *)
    reading 50 (PI / 2) 10 (-20) 4;  (* end of side 2 *)
    reading 55 PI 10 (-20) 4;        (* turned *)
    reading 80 PI 10 0 4;            (* end of side 3 *)
    reading 85 (- PI / 2) 10 0 4;    (* turned *)
    reading 99 (- PI / 2) 0 0 4;     (* end of side 4 *)
    reading 120 (- PI / 2) 0 0 0.2 ] (* on the ground *).

(** The states that flight goes through, one per reading. *)
Definition flight1 : State :=
  set_stabilize_start_time (Some 2) (set_state STABILIZE default_state).
Definition flight2 : State :=
  begin_side 20 (mkPosition 0 0 4) (set_side_index 0 (set_state SIDE_1 flight1)).
Definition flight3 : State := complete_side (fired flight2).
Definition flight4 : State :=
  begin_side 10 (mkPosition 0 (-20) 4)
    (set_state SIDE_2 (set_side_index 1 flight3)).
Definition flight5 : State := complete_side (fired flight4).
Definition flight6 : State :=
  begin_side 20 (mkPosition 10 (-20) 4)
    (set_state SIDE_3 (set_side_index 2 flight5)).
Definition flight7 : State := complete_side (fired flight6).
Definition flight8 : State :=
  begin_side 10 (mkPosition 10 0 4)
    (set_state SIDE_4 (set_side_index 3 flight7)).
Definition flight9 : State := complete_side (fired flight8).
Definition flight10 : State :=
  set_state DONE
    (set_target_altitude (Rmax 0 (target_altitude flight9 - 0.005)) flight9).

(** The side-completion test of a [SIDE_*] iteration succeeds. *)
Definition side_completes (s : State) (sn : Sensors) : Prop :=
  is_side (state s) = true
  /\ distance_traveled s sn >= current_side_distance s.

(** The commanded yaw after each iteration of a run, preceded by the one
    the run starts with. *)
Definition yaw_targets (s : State) (inputs : list Sensors) : list R :=
  accumulated_yaw s :: map (fun so => accumulated_yaw (fst so)) (run s inputs).

(** The capture distances that [begin_side] computes for a side of
    length [L]. *)
Definition thresholds (L : R) : list R :=
  [L * 1 / 4; L * 2 / 4; L * 3 / 4; L * 4 / 4].

(** The value [side_index] has from a flight state on: the index in
    [side_distances] of the side being flown or last flown. *)
Definition side_of (p : FlightState) : nat :=
  match p with
  | TAKEOFF | STABILIZE | SIDE_1 | TURN_1 => 0
  | SIDE_2 | TURN_2 => 1
  | SIDE_3 | TURN_3 => 2
  | SIDE_4 | LAND | DONE => 3
  end.

(** Number of quarter turns commanded by the time a flight state is
    reached. *)
Definition turns_done (p : FlightState) : nat :=
  match p with
  | TAKEOFF | STABILIZE | SIDE_1 => 0
  | TURN_1 | SIDE_2 => 1
  | TURN_2 | SIDE_3 => 2
  | TURN_3 | SIDE_4 | LAND | DONE => 3
  end.

(** The flight states entered when a side is complete. *)
Definition side_finished (p : FlightState) : bool :=
  match p with
  | TURN_1 | TURN_2 | TURN_3 | LAND | DONE => true
  | _ => false
  end.

(** The states at the end of each completed iteration of a run. *)
Definition states (s : State) (inputs : list Sensors) : list State :=
  map fst (run s inputs).

(** The test under which the state machine leaves the current flight
    state with the current reading. *)
Definition exit_condition (s : State) (sn : Sensors) : Prop :=
  match state s with
  | TAKEOFF => altitude sn > target_altitude s - 0.3
  | STABILIZE =>
      match stabilize_start_time s with
      | Some start => time sn - start > STABILIZE_TIME
      | None => False
      end
  | SIDE_1 | SIDE_2 | SIDE_3 | SIDE_4 =>
      distance_traveled s sn >= current_side_distance s
  | TURN_1 | TURN_2 | TURN_3 =>
      Rabs (normalize_angle (target_yaw s - yaw sn)) < ANGLE_TOLERANCE
  | LAND => altitude sn < 0.3
  | DONE => False
  end.

(** How the counters and the side variables of [main] hang together at
    the top of every iteration. *)
Record Bookkeeping (s : State) : Prop := {
  bk_plan : exists l b, side_distances s = [l; b; l; b];
  bk_before :
    before_sides (state s) = true ->
    image_counter s = 0%nat /\ images_taken_this_side s = 0%nat;
  bk_side :
    before_sides (state s) = false ->
    side_index s = side_of (state s)
    /\ nth_error (side_distances s) (side_index s)
       = Some (current_side_distance s)
    /\ capture_distances s = thresholds (current_side_distance s);
  bk_count :
    before_sides (state s) = false ->
    (side_of (state s) + images_taken_this_side s <= image_counter s
     <= 4 * side_of (state s) + images_taken_this_side s)%nat;
  bk_taken : (images_taken_this_side s <= 4)%nat;
  bk_finished :
    side_finished (state s) = true -> (1 <= images_taken_this_side s)%nat;
  bk_turn : is_turn (state s) = true -> target_yaw s = accumulated_yaw s
}.

(** [str(n)] for a non-negative integer: its decimal digits. *)
Definition str (n : nat) : string :=
  DecimalString.NilEmpty.string_of_uint (Nat.to_uint n).

Fixpoint zeros (k : nat) : string :=
  match k with
  | O => EmptyString
  | S k => String "0"%char (zeros k)
  end.

(** [f"{n:04d}"] for a non-negative integer: the digits, padded with
    zeros on the left to a width of at least four. *)
Definition format_04d (n : nat) : string :=
  let digits := str n in
  (zeros (4 - String.length digits) ++ digits)%string.

(** [f"capture_{image_counter:04d}.jpg"]: the name, inside the image
    directory, of the file an image is saved to. *)
Definition capture_name (image_counter : nat) : string :=
  ("capture_" ++ format_04d image_counter ++ ".jpg")%string.

(** The number a string of decimal digits stands for. *)
Definition number_of (digits : string) : option nat :=
  option_map Nat.of_uint (DecimalString.NilEmpty.uint_of_string digits).

(* ================================================================== *)
(** * Properties *)

(* ------------------------------------------------------------------ *)
(** ** The capture scheduler *)

Lemma begin_side_thresholds (L : R) (gps : Position) (s : State) :
  capture_distances (begin_side L gps s)
  = [L * 1 / 4; L * 2 / 4; L * 3 / 4; L * 4 / 4].
Proof.
  unfold begin_side; simpl.
  repeat (f_equal; try lra).
Qed.

Lemma begin_side_length (L : R) (gps : Position) (s : State) :
  List.length (capture_distances (begin_side L gps s)) = IMAGES_PER_SIDE.
Proof. reflexivity. Qed.

Lemma on_progress_fire (d : R) (s : State) :
  capture_due d s ->
  on_progress d s = Continue (fired s, Some (image_counter s + 1)%nat).
Proof.
  intros [Hlt [thr [Hnth Hge]]]. unfold on_progress.
  apply Nat.ltb_lt in Hlt. rewrite Hlt.
  unfold subscript. rewrite Hnth. simpl.
  destruct (Rge_dec d thr) as [_ | Hn]; [reflexivity | contradiction].
Qed.

Lemma on_progress_idle (d : R) (s : State) :
  List.length (capture_distances s) = IMAGES_PER_SIDE ->
  ~ capture_due d s ->
  on_progress d s = Continue (s, None).
Proof.
  intros Hlen Hnot. unfold on_progress.
  destruct (Nat.ltb_spec (images_taken_this_side s) IMAGES_PER_SIDE) as [Hlt | Hge];
    [| reflexivity].
  unfold subscript.
  destruct (nth_error (capture_distances s) (images_taken_this_side s))
    as [thr |] eqn:Hnth.
  - simpl. destruct (Rge_dec d thr) as [Hge | _]; [| reflexivity].
    exfalso. apply Hnot. split; [assumption |]. exists thr. split; assumption.
  - apply nth_error_None in Hnth. lia.
Qed.

(** Whatever the state, a progress report that returns either leaves the
    state alone or advances both counters by one and reports the new image
    number. *)
Lemma on_progress_cases (d : R) (s s' : State) (image : option nat) :
  on_progress d s = Continue (s', image) ->
  (s' = s /\ image = None)
  \/ (capture_due d s /\ s' = fired s /\ image = Some (image_counter s + 1)%nat).
Proof.
  unfold on_progress.
  destruct (Nat.ltb_spec (images_taken_this_side s) IMAGES_PER_SIDE) as [Hlt | Hge].
  - unfold subscript.
    destruct (nth_error (capture_distances s) (images_taken_this_side s))
      as [thr |] eqn:Hnth; simpl; [| discriminate].
    destruct (Rge_dec d thr) as [Hge | Hlow]; intros H; inversion H; subst.
    + right. split; [| split; reflexivity].
      split; [assumption |]. exists thr. split; assumption.
    + left. split; reflexivity.
  - intros H; inversion H; subst. left. split; reflexivity.
Qed.

(** With the four thresholds in place a progress report never raises. *)
Lemma on_progress_total (d : R) (s : State) :
  List.length (capture_distances s) = IMAGES_PER_SIDE ->
  exists s' image, on_progress d s = Continue (s', image).
Proof.
  intros Hlen. unfold on_progress.
  destruct (Nat.ltb_spec (images_taken_this_side s) IMAGES_PER_SIDE) as [Hlt | Hge].
  - unfold subscript.
    destruct (nth_error (capture_distances s) (images_taken_this_side s))
      as [thr |] eqn:Hnth.
    + simpl. destruct (Rge_dec d thr); eauto.
    + apply nth_error_None in Hnth. lia.
  - eauto.
Qed.

(** The threshold indices and the image numbers of the captures fired by
    a sequence of reports, bounded from below by the counters at its
    start. *)
Lemma reports_sorted (ds : list R) : forall s,
  StronglySorted lt (map (fun c => snd (fst c)) (reports s ds))
  /\ StronglySorted lt (map snd (reports s ds))
  /\ Forall (fun c => (images_taken_this_side s <= snd (fst c) < IMAGES_PER_SIDE)%nat
                      /\ (image_counter s < snd c)%nat) (reports s ds).
Proof.
  induction ds as [| d rest IH]; intros s; simpl.
  - repeat split; constructor.
  - destruct (on_progress d s) as [[s' [n |]] | |] eqn:Hstep;
      try solve [repeat split; constructor].
    + apply on_progress_cases in Hstep.
      destruct Hstep as [[_ Habs] | [[Hlt _] [-> Hn]]]; [discriminate |].
      inversion Hn; subst n; clear Hn.
      destruct (IH (fired s)) as [Hidx [Hnum Hall]]. simpl in Hall.
      repeat split.
      * simpl. constructor; [assumption |].
        rewrite Forall_map. eapply Forall_impl; [| exact Hall].
        simpl. intros c [[Hc _] _]. lia.
      * simpl. constructor; [assumption |].
        rewrite Forall_map. eapply Forall_impl; [| exact Hall].
        simpl. intros c [_ Hc]. lia.
      * constructor; [simpl; lia |].
        eapply Forall_impl; [| exact Hall].
        simpl. intros c [[Hc1 Hc2] Hc3]. lia.
    + apply on_progress_cases in Hstep.
      destruct Hstep as [[-> _] | [_ [_ Habs]]]; [| discriminate].
      apply IH.
Qed.

(* ------------------------------------------------------------------ *)
(** ** Shape of one iteration *)

(** Unfolds the binds of a hypothesis [H : _ = Continue _], splitting on
    every option, list access and comparison it meets. *)
Ltac split_outcome H :=
  repeat match type of H with
    | context [defined ?o] => destruct o eqn:?; simpl in H
    | context [subscript ?l ?i] =>
        unfold subscript in H; destruct (nth_error l i) eqn:?; simpl in H
    | context [Rgt_dec ?a ?b] => destruct (Rgt_dec a b); simpl in H
    | context [Rge_dec ?a ?b] => destruct (Rge_dec a b); simpl in H
    | context [Rlt_dec ?a ?b] => destruct (Rlt_dec a b); simpl in H
    | _ = _ => discriminate H
    end.

(** What an iteration in a [SIDE_*] state does, in terms of the capture
    scheduler and the side-completion test. *)
Lemma state_machine_side (s : State) (sn : Sensors) :
  is_side (state s) = true ->
  state_machine s sn =
    (origin <- defined (state_start_pos s) ;;
     let dx := pos_x (gps_pos sn) - pos_x origin in
     let dy := pos_y (gps_pos sn) - pos_y origin in
     let distance_traveled :=
       Rabs (snd (decompose_displacement dx dy (accumulated_yaw s))) in
     '(s1, image) <- on_progress distance_traveled s ;;
     Continue
       (if Rge_dec distance_traveled (current_side_distance s1)
        then complete_side s1 else s1,
        mkDisturbance (- STRAFE_SPEED)
          (K_FORWARD_CORRECTION
           * fst (decompose_displacement dx dy (accumulated_yaw s)))
          (2 * normalize_angle (accumulated_yaw s - yaw sn)),
        image)).
Proof.
  intros Hside. unfold state_machine.
  destruct (state s); try discriminate Hside; reflexivity.
Qed.

(** A completed iteration of a [SIDE_*] state: the capture scheduler ran on
    the state, then the side-completion test. *)
Lemma step_side_inv (s s' : State) (sn : Sensors) (out : Outputs) :
  is_side (state s) = true ->
  step s sn = Continue (s', out) ->
  exists origin s1,
    state_start_pos s = Some origin
    /\ on_progress (distance_traveled s sn) s = Continue (s1, saved_image out)
    /\ ((distance_traveled s sn < current_side_distance s1 /\ s' = s1)
        \/ (distance_traveled s sn >= current_side_distance s1
            /\ s' = complete_side s1)).
Proof.
  intros Hside Hstep. unfold step in Hstep.
  rewrite (state_machine_side _ _ Hside) in Hstep.
  unfold distance_traveled.
  destruct (state_start_pos s) as [origin |]; simpl in Hstep; [| discriminate].
  match type of Hstep with
  | context [on_progress ?d s] =>
      exists origin; destruct (on_progress d s) as [[s1 image] | |] eqn:Hprog
  end; simpl in Hstep; try discriminate.
  exists s1. inversion Hstep; subst; clear Hstep. simpl.
  split; [reflexivity |]. split; [exact Hprog |].
  match goal with
  | |- context [Rge_dec ?a ?b] => destruct (Rge_dec a b)
  end; [right; split; [assumption | reflexivity]
       | left; split; [lra | reflexivity]].
Qed.

(** A completed iteration outside the [SIDE_*] states saves no image and
    leaves the image counter alone. *)
Lemma step_other_inv (s s' : State) (sn : Sensors) (out : Outputs) :
  is_side (state s) = false ->
  step s sn = Continue (s', out) ->
  saved_image out = None /\ image_counter s' = image_counter s.
Proof.
  intros Hside Hstep. unfold step, state_machine in Hstep.
  destruct (state s) eqn:Hphase; try discriminate Hside; simpl in Hstep;
    split_outcome Hstep;
    try (unfold complete_turn in Hstep; rewrite Hphase in Hstep; simpl in Hstep;
         split_outcome Hstep);
    inversion Hstep; subst; split; reflexivity.
Qed.

Lemma complete_side_image_counter (s : State) :
  image_counter (complete_side s) = image_counter s.
Proof. unfold complete_side. destruct (state s); reflexivity. Qed.

(** An iteration either saves no image and keeps the counter, or saves the
    image whose number is the counter advanced by one. *)
Lemma step_image_counter (s s' : State) (sn : Sensors) (out : Outputs) :
  step s sn = Continue (s', out) ->
  (saved_image out = None /\ image_counter s' = image_counter s)
  \/ (saved_image out = Some (image_counter s + 1)%nat
      /\ image_counter s' = (image_counter s + 1)%nat).
Proof.
  intros Hstep. destruct (is_side (state s)) eqn:Hside.
  - destruct (step_side_inv _ _ _ _ Hside Hstep)
      as [origin [s1 [_ [Hprog Hnext]]]].
    assert (Hcount : image_counter s' = image_counter s1).
    { destruct Hnext as [[_ ->] | [_ ->]];
        [reflexivity | apply complete_side_image_counter]. }
    rewrite Hcount.
    destruct (on_progress_cases _ _ _ _ Hprog) as [[-> ->] | [_ [-> ->]]].
    + left. split; reflexivity.
    + right. split; reflexivity.
  - left. exact (step_other_inv _ _ _ _ Hside Hstep).
Qed.

(** The numbers of the images saved during a run increase strictly, and
    all lie above the counter the run started from. *)
Lemma images_saved_sorted (inputs : list Sensors) : forall s,
  StronglySorted lt (images_saved s inputs)
  /\ Forall (fun n => (image_counter s < n)%nat) (images_saved s inputs).
Proof.
  unfold images_saved.
  induction inputs as [| sn rest IH]; intros s; simpl.
  - split; constructor.
  - destruct (step s sn) as [[s' out] | |] eqn:Hstep; simpl;
      try solve [split; constructor].
    destruct (IH s') as [Hsorted Hall].
    destruct (step_image_counter _ _ _ _ Hstep) as [[-> Hc] | [-> Hc]];
      rewrite Hc in Hall; simpl.
    + split; assumption.
    + split.
      * constructor; assumption.
      * constructor; [lia |].
        eapply Forall_impl; [| exact Hall]. simpl. intros n Hn. lia.
Qed.

Lemma reports_cons_fire (d : R) (s : State) (rest : list R) :
  capture_due d s ->
  reports s (d :: rest)
  = (d, images_taken_this_side s, (image_counter s + 1)%nat)
      :: reports (fired s) rest.
Proof.
  intros Hdue. simpl. rewrite (on_progress_fire _ _ Hdue). reflexivity.
Qed.

Lemma reports_cons_idle (d : R) (s : State) (rest : list R) :
  List.length (capture_distances s) = IMAGES_PER_SIDE ->
  ~ capture_due d s ->
  reports s (d :: rest) = reports s rest.
Proof.
  intros Hlen Hnot. simpl. rewrite (on_progress_idle _ _ Hlen Hnot). reflexivity.
Qed.

(** Decides [capture_due] on a state whose thresholds are known. *)
Ltac due :=
  split; [unfold IMAGES_PER_SIDE; simpl; lia
        | eexists; split; [reflexivity | simpl; lra]].
Ltac not_due :=
  let H := fresh in
  let thr := fresh in
  let Hn := fresh in
  let Hge := fresh in
  intros [H [thr [Hn Hge]]]; unfold IMAGES_PER_SIDE in H; simpl in Hn, H;
  first [lia | inversion Hn; subst thr; simpl in Hge; lra].

(** The worked example of the specification: a side of length 20 and nine
    progress reports. *)
Lemma reports_side_20 (gps : Position) (s : State) :
  reports (begin_side 20 gps s) [4.9; 5; 5.1; 9.9; 10; 14.9; 15; 19.9; 20]
  = [ (5, 0%nat, (image_counter s + 1)%nat);
      (10, 1%nat, (image_counter s + 2)%nat);
      (15, 2%nat, (image_counter s + 3)%nat);
      (20, 3%nat, (image_counter s + 4)%nat) ].
Proof.
  rewrite reports_cons_idle by (reflexivity || not_due).
  rewrite reports_cons_fire by due.
  rewrite reports_cons_idle by (reflexivity || not_due).
  rewrite reports_cons_idle by (reflexivity || not_due).
  rewrite reports_cons_fire by due.
  rewrite reports_cons_idle by (reflexivity || not_due).
  rewrite reports_cons_fire by due.
  rewrite reports_cons_idle by (reflexivity || not_due).
  rewrite reports_cons_fire by due.
  simpl. repeat (f_equal; try lia).
Qed.

(** What a completed iteration outside the [SIDE_*] states does to the
    variables of [main]. *)
Lemma step_other_cases (s s' : State) (sn : Sensors) (out : Outputs) :
  is_side (state s) = false ->
  step s sn = Continue (s', out) ->
  match state s with
  | TAKEOFF =>
      s' = s
      \/ s' = set_stabilize_start_time (Some (time sn)) (set_state STABILIZE s)
  | STABILIZE =>
      stabilize_start_time s <> None
      /\ (s' = s
          \/ exists side_dist,
               nth_error (side_distances s) 0 = Some side_dist
               /\ s' = begin_side side_dist (gps_pos sn)
                         (set_side_index 0 (set_state SIDE_1 s)))
  | TURN_1 => s' = s \/ next_side 1 SIDE_2 sn s s'
  | TURN_2 => s' = s \/ next_side 2 SIDE_3 sn s s'
  | TURN_3 => s' = s \/ next_side 3 SIDE_4 sn s s'
  | LAND =>
      let s1 := set_target_altitude (Rmax 0 (target_altitude s - 0.005)) s in
      s' = s1 \/ s' = set_state DONE s1
  | _ => False
  end.
Proof.
  intros Hside Hstep. unfold step, state_machine in Hstep.
  destruct (state s) eqn:Hphase; try discriminate Hside; simpl in Hstep;
    split_outcome Hstep;
    try (unfold complete_turn in Hstep; rewrite Hphase in Hstep; simpl in Hstep;
         split_outcome Hstep);
    inversion Hstep; subst; clear Hstep;
    try (split; [discriminate |]);
    try (left; reflexivity);
    try (right; reflexivity);
    right; eexists; split; try eassumption; reflexivity.
Qed.

(* ------------------------------------------------------------------ *)
(** ** Order of the flight states *)

Lemma rank_injective (p q : FlightState) : rank p = rank q -> p = q.
Proof. destruct p, q; simpl; intros H; try reflexivity; discriminate H. Qed.

Lemma advance_rank (p q : FlightState) :
  advance p q -> (rank p <= rank q)%nat.
Proof.
  intros [-> | Hs]; [lia |].
  destruct p; simpl in Hs; inversion Hs; subst; simpl; lia.
Qed.

Lemma on_progress_state (d : R) (s s1 : State) (image : option nat) :
  on_progress d s = Continue (s1, image) -> state s1 = state s.
Proof.
  intros H. destruct (on_progress_cases _ _ _ _ H) as [[-> _] | [_ [-> _]]];
    reflexivity.
Qed.

Lemma complete_side_advance (s : State) :
  is_side (state s) = true ->
  successor (state s) = Some (state (complete_side s)).
Proof.
  unfold complete_side. destruct (state s) eqn:Hphase; intros H;
    try discriminate H; reflexivity.
Qed.

Lemma step_advance (s s' : State) (sn : Sensors) (out : Outputs) :
  step s sn = Continue (s', out) -> advance (state s) (state s').
Proof.
  intros Hstep. destruct (is_side (state s)) eqn:Hside.
  - destruct (step_side_inv _ _ _ _ Hside Hstep)
      as [origin [s1 [_ [Hprog Hnext]]]].
    pose proof (on_progress_state _ _ _ _ Hprog) as Hsame.
    destruct Hnext as [[_ ->] | [_ ->]].
    + left. assumption.
    + right. rewrite <- Hsame. apply complete_side_advance.
      rewrite Hsame. assumption.
  - pose proof (step_other_cases _ _ _ _ Hside Hstep) as Hcases.
    destruct (state s) eqn:Hphase; try contradiction; try discriminate Hside;
      simpl in Hcases;
      repeat match goal with
        | H : _ /\ _ |- _ => destruct H
        | H : _ \/ _ |- _ => destruct H
        | H : next_side _ _ _ _ _ |- _ => destruct H as [? [_ ?]]
        | H : exists _, _ |- _ => destruct H as [? [_ ?]]
        end; subst s'; simpl;
      solve [left; auto | right; reflexivity].
Qed.

Lemma on_progress_not_break (d : R) (s : State) : on_progress d s <> Break.
Proof.
  unfold on_progress, subscript.
  destruct (images_taken_this_side s <? IMAGES_PER_SIDE)%nat; [| discriminate].
  destruct (nth_error (capture_distances s) (images_taken_this_side s));
    simpl; [| discriminate].
  destruct (Rge_dec d r); discriminate.
Qed.

(** The loop is left exactly from [DONE]. *)
Lemma step_done (s : State) (sn : Sensors) :
  step s sn = Break <-> state s = DONE.
Proof.
  split.
  - intros Hstep. destruct (is_side (state s)) eqn:Hside.
    + exfalso. unfold step in Hstep.
      rewrite (state_machine_side _ _ Hside) in Hstep.
      destruct (state_start_pos s) as [origin |]; simpl in Hstep;
        [| discriminate].
      match type of Hstep with
      | context [on_progress ?d s] =>
          pose proof (on_progress_not_break d s);
          destruct (on_progress d s) as [[s1 image] | |]
      end; simpl in Hstep; [discriminate | contradiction | discriminate].
    + unfold step, state_machine in Hstep.
      destruct (state s) eqn:Hphase; try discriminate Hside;
        try reflexivity; exfalso; simpl in Hstep; split_outcome Hstep;
        unfold complete_turn in Hstep; rewrite Hphase in Hstep;
        simpl in Hstep; split_outcome Hstep.
  - intros Hphase. unfold step, state_machine. rewrite Hphase. reflexivity.
Qed.

Lemma main_init_takeoff (file : option Config) (initial_yaw : R) (s : State) :
  main_init file initial_yaw = Continue s -> state s = TAKEOFF.
Proof.
  unfold main_init, startup, getitem. intros H.
  destruct (lookup "building_length" (load_config file)); simpl in H;
    [| discriminate].
  destruct (lookup "building_breadth" (load_config file)); simpl in H;
    [| discriminate].
  destruct (lookup "building_height" (load_config file)); simpl in H;
    [| discriminate].
  inversion H; reflexivity.
Qed.

Lemma phases_cons (s : State) (sn : Sensors) (rest : list Sensors) :
  phases s (sn :: rest)
  = state s :: match step s sn with
               | Continue (s', _) => phases s' rest
               | _ => []
               end.
Proof.
  unfold phases. simpl. destruct (step s sn) as [[s' out] | |]; reflexivity.
Qed.

(** Along a run, each flight state is followed by itself or by its
    successor. *)
Lemma phases_chain (inputs : list Sensors) : forall s,
  Sorted advance (phases s inputs).
Proof.
  induction inputs as [| sn rest IH]; intros s.
  - repeat constructor.
  - rewrite phases_cons.
    destruct (step s sn) as [[s' out] | |] eqn:Hstep;
      try solve [repeat constructor].
    constructor; [apply IH |].
    unfold phases. constructor. exact (step_advance _ _ _ _ Hstep).
Qed.

Lemma phases_ranked (s : State) (inputs : list Sensors) :
  StronglySorted rank_le (phases s inputs).
Proof.
  apply Sorted_StronglySorted.
  - intros p q r Hpq Hqr. unfold rank_le in *. lia.
  - pose proof (phases_chain inputs s) as Hchain.
    induction Hchain as [| p l Hsorted IH Hhd]; constructor; [assumption |].
    destruct Hhd as [| q l Hadv]; constructor.
    apply advance_rank; assumption.
Qed.

Lemma strongly_sorted_nth {A : Type} (rel : A -> A -> Prop) (l : list A) :
  StronglySorted rel l ->
  forall i j a b, (i < j)%nat ->
    nth_error l i = Some a -> nth_error l j = Some b -> rel a b.
Proof.
  induction 1 as [| x l Hsorted IH Hall]; intros i j a b Hlt Hi Hj.
  - destruct i; discriminate Hi.
  - destruct j as [| j]; [lia |]. simpl in Hj.
    destruct i as [| i]; simpl in Hi.
    + inversion Hi; subst x.
      rewrite Forall_forall in Hall. apply Hall.
      eapply nth_error_In; eassumption.
    + eapply IH; [| eassumption | eassumption]. lia.
Qed.

(** A flight state that has been left does not come back. *)
Lemma phases_no_return (s : State) (inputs : list Sensors)
    (i j k : nat) (p : FlightState) :
  (i <= j <= k)%nat ->
  nth_error (phases s inputs) i = Some p ->
  nth_error (phases s inputs) k = Some p ->
  nth_error (phases s inputs) j = Some p.
Proof.
  intros [Hij Hjk] Hi Hk.
  destruct (Nat.eq_dec i j) as [-> | Hne1]; [assumption |].
  destruct (Nat.eq_dec j k) as [-> | Hne2]; [assumption |].
  destruct (nth_error (phases s inputs) j) as [q |] eqn:Hj.
  - pose proof (phases_ranked s inputs) as Hsorted.
    assert (rank_le p q)
      by (eapply (strongly_sorted_nth _ _ Hsorted i j); [lia | eassumption ..]).
    assert (rank_le q p)
      by (eapply (strongly_sorted_nth _ _ Hsorted j k); [lia | eassumption ..]).
    unfold rank_le in *. f_equal. apply rank_injective. lia.
  - apply nth_error_None in Hj.
    assert (k < List.length (phases s inputs))%nat
      by (apply nth_error_Some; rewrite Hk; discriminate).
    lia.
Qed.

(* ------------------------------------------------------------------ *)
(** ** Iterations that change the flight state *)

Lemma step_takeoff (s : State) (sn : Sensors) :
  state s = TAKEOFF ->
  altitude sn > target_altitude s - 0.3 ->
  exists out,
    step s sn
    = Continue (set_stabilize_start_time (Some (time sn)) (set_state STABILIZE s),
                out).
Proof.
  intros Hphase Halt. unfold step, state_machine. rewrite Hphase.
  destruct (Rgt_dec (altitude sn) (target_altitude s - 0.3));
    [| contradiction].
  simpl. eexists. reflexivity.
Qed.

Lemma step_stabilize (s : State) (sn : Sensors) (start side_dist : R) :
  state s = STABILIZE ->
  stabilize_start_time s = Some start ->
  time sn - start > STABILIZE_TIME ->
  nth_error (side_distances s) 0 = Some side_dist ->
  exists out,
    step s sn
    = Continue (begin_side side_dist (gps_pos sn)
                  (set_side_index 0 (set_state SIDE_1 s)), out).
Proof.
  intros Hphase Hstart Htime Hdist. unfold step, state_machine.
  rewrite Hphase, Hstart. simpl.
  destruct (Rgt_dec (time sn - start) STABILIZE_TIME); [| contradiction].
  unfold subscript. simpl side_distances. rewrite Hdist. simpl.
  eexists. reflexivity.
Qed.

Lemma step_side_complete (s s1 : State) (sn : Sensors) (image : option nat) :
  is_side (state s) = true ->
  state_start_pos s <> None ->
  on_progress (distance_traveled s sn) s = Continue (s1, image) ->
  distance_traveled s sn >= current_side_distance s1 ->
  exists out,
    saved_image out = image
    /\ step s sn = Continue (complete_side s1, out).
Proof.
  intros Hside Horigin Hprog Hdist. unfold step.
  rewrite (state_machine_side _ _ Hside).
  unfold distance_traveled in Hprog, Hdist.
  destruct (state_start_pos s) as [origin |]; [| contradiction].
  simpl. simpl in Hprog. rewrite Hprog. simpl.
  match goal with
  | |- context [Rge_dec ?a ?b] => destruct (Rge_dec a b) as [_ | Hn]
  end; [| exfalso; apply Hn; exact Hdist].
  eexists. split; [| reflexivity]. reflexivity.
Qed.

Lemma step_side_continue (s s1 : State) (sn : Sensors) (image : option nat) :
  is_side (state s) = true ->
  state_start_pos s <> None ->
  on_progress (distance_traveled s sn) s = Continue (s1, image) ->
  distance_traveled s sn < current_side_distance s1 ->
  exists out,
    saved_image out = image
    /\ step s sn = Continue (s1, out).
Proof.
  intros Hside Horigin Hprog Hdist. unfold step.
  rewrite (state_machine_side _ _ Hside).
  unfold distance_traveled in Hprog, Hdist.
  destruct (state_start_pos s) as [origin |]; [| contradiction].
  simpl. simpl in Hprog. rewrite Hprog. simpl.
  match goal with
  | |- context [Rge_dec ?a ?b] => destruct (Rge_dec a b) as [Hge | _]
  end; [exfalso; simpl in Hdist; lra |].
  eexists. split; [| reflexivity]. reflexivity.
Qed.

Lemma step_turn (s s' : State) (sn : Sensors) :
  is_turn (state s) = true ->
  Rabs (normalize_angle (target_yaw s - yaw sn)) < ANGLE_TOLERANCE ->
  complete_turn (gps_pos sn) s = Continue s' ->
  exists out, step s sn = Continue (s', out).
Proof.
  intros Hturn Hyaw Hnext. unfold step, state_machine.
  destruct (state s) eqn:Hphase; try discriminate Hturn;
    (destruct (Rlt_dec (Rabs (normalize_angle (target_yaw s - yaw sn)))
                       ANGLE_TOLERANCE); [| contradiction]);
    rewrite Hnext; simpl; eexists; reflexivity.
Qed.

Lemma step_land (s : State) (sn : Sensors) :
  state s = LAND ->
  altitude sn < 0.3 ->
  exists out,
    step s sn
    = Continue (set_state DONE
                  (set_target_altitude (Rmax 0 (target_altitude s - 0.005)) s),
                out).
Proof.
  intros Hphase Halt. unfold step, state_machine. rewrite Hphase. simpl.
  destruct (Rlt_dec (altitude sn) 0.3); [| contradiction].
  simpl. eexists. reflexivity.
Qed.

(* ------------------------------------------------------------------ *)
(** ** Angle normalisation *)

Lemma wrap_down_small (x : R) : x <= PI -> wrap_down x = x.
Proof.
  intros Hx. rewrite wrap_down_equation_1.
  destruct (Rgt_dec x PI); [lra | reflexivity].
Qed.

Lemma wrap_down_large (x : R) : x > PI -> wrap_down x = wrap_down (x - two_pi).
Proof.
  intros Hx. rewrite wrap_down_equation_1.
  destruct (Rgt_dec x PI); [reflexivity | contradiction].
Qed.

Lemma wrap_up_small (x : R) : - PI <= x -> wrap_up x = x.
Proof.
  intros Hx. rewrite wrap_up_equation_1.
  destruct (Rlt_dec x (- PI)); [lra | reflexivity].
Qed.

Lemma wrap_up_large (x : R) : x < - PI -> wrap_up x = wrap_up (x + two_pi).
Proof.
  intros Hx. rewrite wrap_up_equation_1.
  destruct (Rlt_dec x (- PI)); [reflexivity | contradiction].
Qed.

(** The first loop ends at or below [PI], and above [-PI] when it ran. *)
Lemma wrap_down_range (x : R) :
  wrap_down x <= PI /\ (x <= wrap_down x \/ - PI < wrap_down x).
Proof.
  funelim (wrap_down x); pose proof PI_RGT_0 as Hpi.
  - destruct H as [Hle Hcase]. split; [exact Hle |].
    right. destruct Hcase as [Hsame | Hlow]; [| exact Hlow].
    unfold two_pi in *. lra.
  - split; [lra | left; lra].
Qed.

(** The second loop ends at or above [-PI], and below [PI] when it ran. *)
Lemma wrap_up_range (x : R) :
  - PI <= wrap_up x /\ (wrap_up x <= x \/ wrap_up x < PI).
Proof.
  funelim (wrap_up x); pose proof PI_RGT_0 as Hpi.
  - destruct H as [Hge Hcase]. split; [exact Hge |].
    right. destruct Hcase as [Hsame | Hhigh]; [| exact Hhigh].
    unfold two_pi in *. lra.
  - split; [lra | left; lra].
Qed.

Lemma normalize_angle_range (x : R) :
  - PI <= normalize_angle x <= PI.
Proof.
  unfold normalize_angle.
  destruct (wrap_down_range x) as [Hle _].
  destruct (wrap_up_range (wrap_down x)) as [Hge [Hsame | Hlt]]; lra.
Qed.

Lemma normalize_angle_small (x : R) :
  - PI <= x <= PI -> normalize_angle x = x.
Proof.
  intros [Hlo Hhi]. unfold normalize_angle.
  rewrite (wrap_down_small _ Hhi). apply wrap_up_small. exact Hlo.
Qed.

Lemma normalize_angle_turn (x : R) :
  PI < x <= 3 * PI -> normalize_angle x = x - two_pi.
Proof.
  intros [Hlo Hhi]. unfold normalize_angle.
  rewrite (wrap_down_large _ Hlo).
  rewrite wrap_down_small by (unfold two_pi; lra).
  apply wrap_up_small. unfold two_pi. lra.
Qed.

(** C4 (as stated, refuted). The result of [normalize_angle] does not
    always lie in the half-open interval from [-PI] (excluded) to [PI]:
    the second loop tests [angle < -math.pi], so [-PI] is returned as it
    is. *)
Lemma normalize_angle_minus_pi :
  normalize_angle (- PI) = - PI
  /\ ~ (- PI < normalize_angle (- PI) <= PI).
Proof.
  pose proof PI_RGT_0 as Hpi.
  assert (Heq : normalize_angle (- PI) = - PI)
    by (apply normalize_angle_small; lra).
  split; [exact Heq |]. rewrite Heq. lra.
Qed.

(** C4 (amended). [normalize_angle] is idempotent, and its result always
    lies in the closed interval from [-PI] to [PI], as its docstring
    says. *)
Theorem normalize_angle_idempotent_closed (x : R) :
  normalize_angle (normalize_angle x) = normalize_angle x
  /\ - PI <= normalize_angle x <= PI.
Proof.
  split.
  - apply normalize_angle_small, normalize_angle_range.
  - apply normalize_angle_range.
Qed.

(* ------------------------------------------------------------------ *)
(** ** Frame transform *)

(** C6. [decompose_displacement] returns [dx cos h + dy sin h] and
    [dx sin h - dy cos h], and the squares of the two add up to
    [dx^2 + dy^2], for every heading (so in particular for the headings
    between [-PI] and [PI]). *)
Theorem decompose_displacement_preserves_distance (dx dy heading : R) :
  fst (decompose_displacement dx dy heading)
  = dx * cos heading + dy * sin heading
  /\ snd (decompose_displacement dx dy heading)
     = dx * sin heading - dy * cos heading
  /\ fst (decompose_displacement dx dy heading) ^ 2
     + snd (decompose_displacement dx dy heading) ^ 2
     = dx ^ 2 + dy ^ 2.
Proof.
  simpl. split; [reflexivity |]. split; [reflexivity |].
  pose proof (sin2_cos2 heading) as Hunit. unfold Rsqr in Hunit.
  set (c := cos heading) in *. set (sn := sin heading) in *.
  replace ((dx * c + dy * sn) * ((dx * c + dy * sn) * 1)
           + (dx * sn - dy * c) * ((dx * sn - dy * c) * 1))
    with ((dx * dx + dy * dy) * (sn * sn + c * c)) by ring.
  rewrite Hunit. ring.
Qed.

(* ------------------------------------------------------------------ *)
(** ** Vertical channel of the stabiliser *)

(** Splits [clamp] into the cases of its [min] and of its [max]. *)
Ltac unfold_clamp :=
  unfold clamp, Rmin;
  repeat match goal with
    | |- context [Rle_dec ?a ?b] => destruct (Rle_dec a b)
    end;
  unfold Rmax;
  repeat match goal with
    | |- context [Rle_dec ?a ?b] => destruct (Rle_dec a b)
    end.

Lemma clamp_monotone (x y low high : R) :
  x <= y -> clamp x low high <= clamp y low high.
Proof.
  intros Hxy. unfold_clamp; lra.
Qed.

Lemma clamp_inside (x low high : R) :
  low <= x <= high -> clamp x low high = x.
Proof.
  intros [Hlo Hhi]. unfold_clamp; lra.
Qed.

Lemma clamp_above (x low high : R) :
  low <= high -> high <= x -> clamp x low high = high.
Proof.
  intros Hlh Hx. unfold_clamp; lra.
Qed.

Lemma clamp_below (x low high : R) :
  low <= high -> x <= low -> clamp x low high = low.
Proof.
  intros Hlh Hx. unfold_clamp; lra.
Qed.

Lemma cube_monotone (x y : R) : x <= y -> x ^ 3 <= y ^ 3.
Proof.
  intros Hxy.
  assert (Hfactor : y ^ 3 - x ^ 3 = (y - x) * (x * x + x * y + y * y)) by ring.
  assert (Hsq : 0 <= x * x + x * y + y * y).
  { replace (x * x + x * y + y * y)
      with ((x + y / 2) * (x + y / 2) + 3 / 4 * (y * y)) by field.
    pose proof (Rle_0_sqr (x + y / 2)) as H1.
    pose proof (Rle_0_sqr y) as H2. unfold Rsqr in H1, H2. lra. }
  assert (0 <= (y - x) * (x * x + x * y + y * y))
    by (apply Rmult_le_pos; lra).
  lra.
Qed.

Lemma cube_increasing (x y : R) : x < y -> x ^ 3 < y ^ 3.
Proof.
  intros Hxy.
  assert (Hfactor : y ^ 3 - x ^ 3 = (y - x) * (x * x + x * y + y * y)) by ring.
  assert (Hsq : 0 < x * x + x * y + y * y).
  { replace (x * x + x * y + y * y)
      with ((x + y / 2) * (x + y / 2) + 3 / 4 * (y * y)) by field.
    pose proof (Rle_0_sqr (x + y / 2)) as H1.
    pose proof (Rle_0_sqr y) as H2. unfold Rsqr in H1, H2.
    destruct (Req_dec y 0) as [Hy | Hy].
    - subst y. assert (0 < x * x) by nra.
      replace ((x + 0 / 2) * (x + 0 / 2)) with (x * x) by field. lra.
    - assert (0 < y * y) by (apply Rsqr_pos_lt in Hy; exact Hy). lra. }
  assert (0 < (y - x) * (x * x + x * y + y * y))
    by (apply Rmult_lt_0_compat; lra).
  lra.
Qed.

Lemma step_motor_velocities (s s' : State) (sn : Sensors) (out : Outputs) :
  step s sn = Continue (s', out) ->
  exists d, motor_velocities out = motor_control (target_altitude s') sn d.
Proof.
  unfold step. destruct (state_machine s sn) as [[[s1 d] image] | |];
    simpl; intros H; inversion H; subst. exists d. reflexivity.
Qed.

(** C7. The vertical input is [K_VERTICAL_P] times the cube of the clamped
    altitude error plus offset, and it is what every iteration mixes into
    the four motor commands; it never decreases when the altitude error
    grows, increases strictly while the clamp is not active, is constant
    where the clamp is active, and at zero error equals
    [K_VERTICAL_OFFSET ^ 3 * K_VERTICAL_P]. *)
Theorem vertical_response :
  (forall target alt,
      vertical_input target alt
      = K_VERTICAL_P * clamp (target - alt + K_VERTICAL_OFFSET) (-1) 1 ^ 3)
  /\ (forall s sn s' out,
        step s sn = Continue (s', out) ->
        exists roll_input pitch_input yaw_input,
          let base :=
            K_VERTICAL_THRUST + vertical_input (target_altitude s') (altitude sn) in
          motor_velocities out
          = [ base - roll_input + pitch_input - yaw_input;
              - (base + roll_input + pitch_input + yaw_input);
              - (base - roll_input - pitch_input + yaw_input);
              base + roll_input - pitch_input - yaw_input ])
  /\ (forall target1 alt1 target2 alt2,
        target1 - alt1 <= target2 - alt2 ->
        vertical_input target1 alt1 <= vertical_input target2 alt2)
  /\ (forall target1 alt1 target2 alt2,
        -1 <= target1 - alt1 + K_VERTICAL_OFFSET ->
        target2 - alt2 + K_VERTICAL_OFFSET <= 1 ->
        target1 - alt1 < target2 - alt2 ->
        vertical_input target1 alt1 < vertical_input target2 alt2)
  /\ (forall target alt,
        1 <= target - alt + K_VERTICAL_OFFSET ->
        vertical_input target alt = K_VERTICAL_P)
  /\ (forall target alt,
        target - alt + K_VERTICAL_OFFSET <= -1 ->
        vertical_input target alt = - K_VERTICAL_P)
  /\ (forall alt,
        vertical_input alt alt = K_VERTICAL_OFFSET ^ 3 * K_VERTICAL_P).
Proof.
  repeat split.
  - intros s sn s' out Hstep.
    destruct (step_motor_velocities _ _ _ _ Hstep) as [d ->].
    unfold motor_control. do 3 eexists. reflexivity.
  - intros t1 a1 t2 a2 Hle. unfold vertical_input, K_VERTICAL_P.
    apply Rmult_le_compat_l; [lra |].
    apply cube_monotone, clamp_monotone. lra.
  - intros t1 a1 t2 a2 Hlo Hhi Hlt. unfold vertical_input, K_VERTICAL_P.
    apply Rmult_lt_compat_l; [lra |].
    rewrite !clamp_inside by lra.
    apply cube_increasing. lra.
  - intros t a Hsat. unfold vertical_input.
    rewrite clamp_above by lra. ring.
  - intros t a Hsat. unfold vertical_input.
    rewrite clamp_below by lra. ring.
  - intros a. unfold vertical_input.
    rewrite clamp_inside by (unfold K_VERTICAL_OFFSET; lra).
    replace (a - a + K_VERTICAL_OFFSET) with K_VERTICAL_OFFSET by ring.
    ring.
Qed.

(** The vertical response at three altitude errors: inside the clamp
    range, and saturated on either side. *)
Lemma vertical_input_samples :
  vertical_input 4 4 = 0.648
  /\ vertical_input 4 3 = 3
  /\ vertical_input 4 2 = 3
  /\ vertical_input 4 6 = -3
  /\ vertical_input 4 4.5 < vertical_input 4 4.
Proof.
  destruct vertical_response
    as [_ [_ [_ [Hstrict [Hhigh [Hlow Hzero]]]]]].
  split; [rewrite Hzero; unfold K_VERTICAL_OFFSET, K_VERTICAL_P; lra |].
  split; [rewrite Hhigh by (unfold K_VERTICAL_OFFSET; lra); reflexivity |].
  split; [rewrite Hhigh by (unfold K_VERTICAL_OFFSET; lra); reflexivity |].
  split; [rewrite Hlow by (unfold K_VERTICAL_OFFSET; lra); reflexivity |].
  apply Hstrict; unfold K_VERTICAL_OFFSET; lra.
Defined.

(* ------------------------------------------------------------------ *)
(** ** The inspection plan *)

Lemma main_init_default : main_init None 0 = Continue default_state.
Proof. reflexivity. Qed.

Lemma main_init_plan (file : option Config) (initial_yaw l b h : R) :
  lookup "building_length" (load_config file) = Some l ->
  lookup "building_breadth" (load_config file) = Some b ->
  lookup "building_height" (load_config file) = Some h ->
  exists s,
    main_init file initial_yaw = Continue s
    /\ target_altitude s = h / 2
    /\ side_distances s = [l; b; l; b].
Proof.
  intros Hl Hb Hh. unfold main_init, startup, getitem.
  rewrite Hl, Hb, Hh. simpl. eexists. split; [reflexivity |].
  split; reflexivity.
Qed.

(** C8. The plan is derived from the three dimensions of the
    configuration: the target altitude is half the height and the sides
    are length, breadth, length, breadth; without a configuration file the
    dimensions are 20, 10 and 8, so the target altitude is 4 and the sides
    are 20, 10, 20, 10. *)
Theorem inspection_plan :
  (forall file initial_yaw l b h,
      lookup "building_length" (load_config file) = Some l ->
      lookup "building_breadth" (load_config file) = Some b ->
      lookup "building_height" (load_config file) = Some h ->
      exists s,
        main_init file initial_yaw = Continue s
        /\ target_altitude s = h / 2
        /\ side_distances s = [l; b; l; b])
  /\ lookup "building_length" (load_config None) = Some 20
  /\ lookup "building_breadth" (load_config None) = Some 10
  /\ lookup "building_height" (load_config None) = Some 8
  /\ (forall initial_yaw,
        exists s,
          main_init None initial_yaw = Continue s
          /\ target_altitude s = 4
          /\ side_distances s = [20; 10; 20; 10]).
Proof.
  split; [exact main_init_plan |].
  repeat (split; [reflexivity |]).
  intros initial_yaw. eexists. split; [reflexivity |].
  split; [simpl; lra | reflexivity].
Qed.

(** The plan of a 30 by 12 by 9 building. *)
Lemma plan_30_12_9 :
  exists s,
    main_init (Some [("building_height"%string, 9);
                     ("building_length"%string, 30);
                     ("building_breadth"%string, 12)]) 0 = Continue s
    /\ target_altitude s = 9 / 2
    /\ side_distances s = [30; 12; 30; 12].
Proof.
  apply (proj1 inspection_plan); reflexivity.
Defined.

(* ------------------------------------------------------------------ *)
(** ** Invariant of the main loop *)

Lemma invariant_init (file : option Config) (initial_yaw : R) (s : State) :
  main_init file initial_yaw = Continue s -> Invariant s.
Proof.
  unfold main_init, startup, getitem. intros H.
  destruct (lookup "building_length" (load_config file)); simpl in H;
    [| discriminate].
  destruct (lookup "building_breadth" (load_config file)); simpl in H;
    [| discriminate].
  destruct (lookup "building_height" (load_config file)); simpl in H;
    [| discriminate].
  inversion H; subst; clear H.
  constructor; simpl; try reflexivity; try discriminate.
  - unfold IMAGES_PER_SIDE; lia.
  - intros _. split; reflexivity.
Qed.

(** Closes the five fields of [Invariant] on a state given by setters. *)
Ltac invariant_fields Hinv :=
  destruct Hinv as [Hsd Himg Hstab Hbefore Hafter];
  constructor; simpl in *;
  try assumption; try discriminate;
  try (unfold IMAGES_PER_SIDE in *; lia);
  try (intros _; split; [discriminate | reflexivity]);
  try (intros _; apply Hafter; reflexivity);
  try (intros _; apply Hbefore; reflexivity).

Lemma invariant_step (s s' : State) (sn : Sensors) (out : Outputs) :
  Invariant s -> step s sn = Continue (s', out) -> Invariant s'.
Proof.
  intros Hinv Hstep. destruct (is_side (state s)) eqn:Hside.
  - destruct (step_side_inv _ _ _ _ Hside Hstep)
      as [origin [s1 [Horigin [Hprog Hnext]]]].
    assert (Hinv1 : Invariant s1).
    { destruct (on_progress_cases _ _ _ _ Hprog)
        as [[-> _] | [[Hlt _] [-> _]]]; [assumption |].
      unfold fired. destruct (state s) eqn:Hphase; try discriminate Hside;
        invariant_fields Hinv; rewrite Hphase in *;
        try discriminate; try (apply Hafter; reflexivity). }
    assert (Hside1 : is_side (state s1) = true)
      by (rewrite (on_progress_state _ _ _ _ Hprog); assumption).
    destruct Hnext as [[_ ->] | [_ ->]]; [assumption |].
    unfold complete_side.
    destruct (state s1) eqn:Hphase; try discriminate Hside1;
      invariant_fields Hinv1; rewrite Hphase in *;
      try discriminate; try (apply Hafter; reflexivity).
  - pose proof (step_other_cases _ _ _ _ Hside Hstep) as Hcases.
    destruct (state s) eqn:Hphase; try contradiction;
      try discriminate Hside; simpl in Hcases;
      repeat match goal with
        | H : _ /\ _ |- _ => destruct H
        | H : _ \/ _ |- _ => destruct H
        | H : next_side _ _ _ _ _ |- _ => destruct H as [? [? ?]]
        | H : exists _, _ |- _ => destruct H as [? [? ?]]
        end; subst s'; try assumption;
      unfold begin_side;
      invariant_fields Hinv; rewrite ?Hphase in *;
      try discriminate; try (apply Hafter; reflexivity);
      try (apply Hbefore; reflexivity).
Qed.

Lemma reachable_invariant (s : State) : Reachable s -> Invariant s.
Proof.
  induction 1 as [file initial_yaw s Hinit | s sn s' out _ IH Hstep].
  - exact (invariant_init _ _ _ Hinit).
  - exact (invariant_step _ _ _ _ IH Hstep).
Qed.

Lemma turn_total (s : State) (sn : Sensors) :
  Invariant s ->
  is_turn (state s) = true ->
  exists s' out, step s sn = Continue (s', out).
Proof.
  intros Hinv Hturn. pose proof (inv_side_distances _ Hinv) as Hsd.
  unfold step, state_machine.
  destruct (state s) eqn:Hphase; try discriminate Hturn;
    (destruct (Rlt_dec (Rabs (normalize_angle (target_yaw s - yaw sn)))
                       ANGLE_TOLERANCE);
     [| simpl; do 2 eexists; reflexivity]);
    unfold complete_turn, subscript; rewrite Hphase; simpl side_distances;
    simpl side_index;
    destruct (side_distances s) as [| l1 [| l2 [| l3 [| l4 rest]]]];
    try discriminate Hsd; simpl; do 2 eexists; reflexivity.
Qed.

(** Under the invariant an iteration raises nothing: it runs to its end
    or leaves the loop. *)
Lemma invariant_step_total (s : State) (sn : Sensors) :
  Invariant s ->
  (exists s' out, step s sn = Continue (s', out)) \/ step s sn = Break.
Proof.
  intros Hinv. destruct (is_side (state s)) eqn:Hside.
  - left. unfold step. rewrite (state_machine_side _ _ Hside).
    assert (Hrank : before_sides (state s) = false)
      by (destruct (state s); try discriminate Hside; reflexivity).
    destruct (inv_after _ Hinv Hrank) as [Horigin Hlen].
    destruct (state_start_pos s) as [origin |]; [| contradiction].
    simpl.
    match goal with
    | |- context [on_progress ?d s] =>
        destruct (on_progress_total d s Hlen) as [s1 [image ->]]
    end.
    simpl. do 2 eexists; reflexivity.
  - destruct (state s) eqn:Hphase; try discriminate Hside.
    + left. unfold step, state_machine. rewrite Hphase. simpl.
      do 2 eexists; reflexivity.
    + left. unfold step, state_machine. rewrite Hphase.
      pose proof (inv_stabilize _ Hinv Hphase) as Hstart.
      pose proof (inv_side_distances _ Hinv) as Hsd.
      destruct (stabilize_start_time s) as [start |]; [| contradiction].
      simpl. destruct (Rgt_dec (time sn - start) STABILIZE_TIME);
        [| simpl; do 2 eexists; reflexivity].
      unfold subscript. simpl side_distances.
      destruct (side_distances s) as [| l rest]; [discriminate Hsd |].
      simpl. do 2 eexists; reflexivity.
    + left. apply turn_total; [assumption | rewrite Hphase; reflexivity].
    + left. apply turn_total; [assumption | rewrite Hphase; reflexivity].
    + left. apply turn_total; [assumption | rewrite Hphase; reflexivity].
    + left. unfold step, state_machine. rewrite Hphase. simpl.
      do 2 eexists; reflexivity.
    + right. apply step_done. assumption.
Qed.

(* ------------------------------------------------------------------ *)
(** ** A complete flight around the default building *)

Lemma Rabs_value (x v : R) : 0 <= v -> x = v -> Rabs x = v.
Proof. intros Hv ->. apply Rabs_pos_eq. exact Hv. Qed.

Lemma distance_side_1 : distance_traveled flight2 (reading 30 0 0 (-20) 4) = 20.
Proof.
  unfold distance_traveled. simpl. apply Rabs_value; [lra |].
  rewrite sin_0, cos_0. lra.
Qed.

Lemma distance_side_2 :
  distance_traveled flight4 (reading 50 (PI / 2) 10 (-20) 4) = 10.
Proof.
  unfold distance_traveled. simpl. apply Rabs_value; [lra |].
  replace (0 + PI / 2) with (PI / 2) by lra.
  rewrite sin_PI2, cos_PI2. lra.
Qed.

Lemma distance_side_3 : distance_traveled flight6 (reading 80 PI 10 0 4) = 20.
Proof.
  unfold distance_traveled. simpl. apply Rabs_value; [lra |].
  replace (0 + PI / 2 + PI / 2) with PI by lra.
  rewrite sin_PI, cos_PI. lra.
Qed.

Lemma distance_side_4 :
  distance_traveled flight8 (reading 99 (- PI / 2) 0 0 4) = 10.
Proof.
  unfold distance_traveled. simpl. apply Rabs_value; [lra |].
  replace (0 + PI / 2 + PI / 2 + PI / 2) with (3 * (PI / 2)) by lra.
  rewrite sin_3PI2, cos_3PI2. lra.
Qed.

(** The yaw error is within tolerance when the measured yaw is the target
    yaw, or differs from it by a full turn. *)
Lemma yaw_error_aligned (x : R) :
  x = 0 \/ x = two_pi -> Rabs (normalize_angle x) < ANGLE_TOLERANCE.
Proof.
  pose proof PI_RGT_0 as Hpi. unfold ANGLE_TOLERANCE.
  intros [-> | ->].
  - rewrite normalize_angle_small by lra. rewrite Rabs_R0. lra.
  - rewrite normalize_angle_turn by (unfold two_pi; lra).
    replace (two_pi - two_pi) with 0 by ring. rewrite Rabs_R0. lra.
Qed.

Lemma flight_step_1 :
  exists out, step default_state (reading 2 0 0 0 4) = Continue (flight1, out).
Proof. apply step_takeoff; [reflexivity | unfold altitude; simpl; lra]. Qed.

Lemma flight_step_2 :
  exists out, step flight1 (reading 6 0 0 0 4) = Continue (flight2, out).
Proof.
  apply (step_stabilize flight1 (reading 6 0 0 0 4) 2 20); try reflexivity.
  unfold STABILIZE_TIME; simpl; lra.
Qed.

Lemma flight_step_3 :
  exists out,
    saved_image out = Some 1%nat
    /\ step flight2 (reading 30 0 0 (-20) 4) = Continue (flight3, out).
Proof.
  apply step_side_complete; try reflexivity; try discriminate;
    rewrite distance_side_1.
  - apply on_progress_fire. due.
  - simpl. lra.
Qed.

Lemma flight_step_4 :
  exists out,
    step flight3 (reading 35 (PI / 2) 0 (-20) 4) = Continue (flight4, out).
Proof.
  apply step_turn; try reflexivity.
  apply yaw_error_aligned. left. simpl. lra.
Qed.

Lemma flight_step_5 :
  exists out,
    saved_image out = Some 2%nat
    /\ step flight4 (reading 50 (PI / 2) 10 (-20) 4) = Continue (flight5, out).
Proof.
  apply step_side_complete; try reflexivity; try discriminate;
    rewrite distance_side_2.
  - apply on_progress_fire. due.
  - simpl. lra.
Qed.

Lemma flight_step_6 :
  exists out, step flight5 (reading 55 PI 10 (-20) 4) = Continue (flight6, out).
Proof.
  apply step_turn; try reflexivity.
  apply yaw_error_aligned. left. simpl. lra.
Qed.

Lemma flight_step_7 :
  exists out,
    saved_image out = Some 3%nat
    /\ step flight6 (reading 80 PI 10 0 4) = Continue (flight7, out).
Proof.
  apply step_side_complete; try reflexivity; try discriminate;
    rewrite distance_side_3.
  - apply on_progress_fire. due.
  - simpl. lra.
Qed.

Lemma flight_step_8 :
  exists out,
    step flight7 (reading 85 (- PI / 2) 10 0 4) = Continue (flight8, out).
Proof.
  apply step_turn; try reflexivity.
  apply yaw_error_aligned. right. unfold two_pi. simpl. lra.
Qed.

Lemma flight_step_9 :
  exists out,
    saved_image out = Some 4%nat
    /\ step flight8 (reading 99 (- PI / 2) 0 0 4) = Continue (flight9, out).
Proof.
  apply step_side_complete; try reflexivity; try discriminate;
    rewrite distance_side_4.
  - apply on_progress_fire. due.
  - simpl. lra.
Qed.

Lemma flight_step_10 :
  exists out,
    step flight9 (reading 120 (- PI / 2) 0 0 0.2) = Continue (flight10, out).
Proof. apply step_land; [reflexivity | unfold altitude; simpl; lra]. Qed.

Lemma phases_step (s s' : State) (sn : Sensors) (rest : list Sensors) :
  (exists out, step s sn = Continue (s', out)) ->
  phases s (sn :: rest) = state s :: phases s' rest.
Proof. intros [out Hstep]. rewrite phases_cons, Hstep. reflexivity. Qed.

Lemma drop_image {s s' : State} {sn : Sensors} {image : option nat} :
  (exists out, saved_image out = image /\ step s sn = Continue (s', out)) ->
  exists out, step s sn = Continue (s', out).
Proof. intros [out [_ H]]. exists out. exact H. Qed.

(** The flight visits the eleven flight states in order. *)
Lemma flight_phases :
  phases default_state flight_readings
  = [TAKEOFF; STABILIZE; SIDE_1; TURN_1; SIDE_2; TURN_2; SIDE_3; TURN_3;
     SIDE_4; LAND; DONE].
Proof.
  unfold flight_readings.
  rewrite (phases_step _ _ _ _ flight_step_1).
  rewrite (phases_step _ _ _ _ flight_step_2).
  rewrite (phases_step _ _ _ _ (drop_image flight_step_3)).
  rewrite (phases_step _ _ _ _ flight_step_4).
  rewrite (phases_step _ _ _ _ (drop_image flight_step_5)).
  rewrite (phases_step _ _ _ _ flight_step_6).
  rewrite (phases_step _ _ _ _ (drop_image flight_step_7)).
  rewrite (phases_step _ _ _ _ flight_step_8).
  rewrite (phases_step _ _ _ _ (drop_image flight_step_9)).
  rewrite (phases_step _ _ _ _ flight_step_10).
  reflexivity.
Qed.

Lemma reachable_next (s s' : State) (sn : Sensors) :
  Reachable s -> (exists out, step s sn = Continue (s', out)) -> Reachable s'.
Proof. intros Hs [out Hstep]. exact (Reachable_step _ _ _ _ Hs Hstep). Qed.

Lemma reachable_default : Reachable default_state.
Proof. exact (Reachable_init None 0 _ main_init_default). Qed.

Lemma reachable_flight3 : Reachable flight3.
Proof.
  eapply reachable_next; [| exact (drop_image flight_step_3)].
  eapply reachable_next; [| exact flight_step_2].
  eapply reachable_next; [| exact flight_step_1].
  exact reachable_default.
Qed.

Lemma reachable_flight8 : Reachable flight8.
Proof.
  eapply reachable_next; [| exact flight_step_8].
  eapply reachable_next; [| exact (drop_image flight_step_7)].
  eapply reachable_next; [| exact flight_step_6].
  eapply reachable_next; [| exact (drop_image flight_step_5)].
  eapply reachable_next; [| exact flight_step_4].
  exact reachable_flight3.
Qed.

(* ------------------------------------------------------------------ *)
(** ** The claims on the capture scheduler *)

(** C1. [begin_side L] sets the thresholds to [L*1/4, L*2/4, L*3/4, L*4/4],
    resets the per-side count to 0 and keeps the image counter.  With the
    four thresholds in place, a progress report fires a capture exactly
    when fewer than four have fired on this side and the distance has
    reached the next threshold; the capture advances both counters by one
    and carries the new value of the image counter.  In a [SIDE_*]
    iteration of the main loop the report is made with the distance
    travelled.  Over any sequence of reports the indices of the thresholds
    fired increase strictly, so no threshold fires twice, and over any run
    of the main loop the image numbers increase strictly.  After
    [begin_side 20], the reports 4.9, 5.0, 5.1, 9.9, 10.0, 14.9, 15.0, 19.9
    and 20.0 fire four captures, at 5.0, 10.0, 15.0 and 20.0. *)
Theorem capture_scheduling :
  (forall L gps s,
      capture_distances (begin_side L gps s)
      = [L * 1 / 4; L * 2 / 4; L * 3 / 4; L * 4 / 4]
      /\ images_taken_this_side (begin_side L gps s) = 0%nat
      /\ image_counter (begin_side L gps s) = image_counter s)
  /\ (forall d s,
        List.length (capture_distances s) = IMAGES_PER_SIDE ->
        (capture_due d s ->
         on_progress d s = Continue (fired s, Some (image_counter s + 1)%nat))
        /\ (~ capture_due d s -> on_progress d s = Continue (s, None)))
  /\ (forall s sn s' out,
        is_side (state s) = true ->
        step s sn = Continue (s', out) ->
        (capture_due (distance_traveled s sn) s
         /\ saved_image out = Some (image_counter s + 1)%nat
         /\ image_counter s' = (image_counter s + 1)%nat)
        \/ (~ capture_due (distance_traveled s sn) s
            /\ saved_image out = None
            /\ image_counter s' = image_counter s))
  /\ (forall s ds,
        StronglySorted lt (map (fun c => snd (fst c)) (reports s ds))
        /\ StronglySorted lt (map snd (reports s ds))
        /\ Forall (fun c => (snd (fst c) < IMAGES_PER_SIDE)%nat) (reports s ds))
  /\ (forall s inputs,
        StronglySorted lt (images_saved s inputs)
        /\ Forall (fun n => (image_counter s < n)%nat) (images_saved s inputs))
  /\ (forall gps s,
        reports (begin_side 20 gps s)
                [4.9; 5; 5.1; 9.9; 10; 14.9; 15; 19.9; 20]
        = [ (5, 0%nat, (image_counter s + 1)%nat);
            (10, 1%nat, (image_counter s + 2)%nat);
            (15, 2%nat, (image_counter s + 3)%nat);
            (20, 3%nat, (image_counter s + 4)%nat) ]).
Proof.
  split.
  { intros L gps s. split; [apply begin_side_thresholds |].
    split; reflexivity. }
  split.
  { intros d s Hlen. split.
    - apply on_progress_fire.
    - apply on_progress_idle. exact Hlen. }
  split.
  { intros s sn s' out Hside Hstep.
    destruct (step_side_inv _ _ _ _ Hside Hstep)
      as [origin [s1 [_ [Hprog Hnext]]]].
    assert (Hcount : image_counter s' = image_counter s1).
    { destruct Hnext as [[_ ->] | [_ ->]];
        [reflexivity | apply complete_side_image_counter]. }
    rewrite Hcount.
    destruct (on_progress_cases _ _ _ _ Hprog)
      as [[-> Himage] | [Hdue [-> Himage]]]; rewrite Himage.
    - right. split; [| split; reflexivity].
      intros Hdue. rewrite (on_progress_fire _ _ Hdue) in Hprog.
      inversion Hprog as [[Hs Hi]]. rewrite Himage in Hi. discriminate Hi.
    - left. split; [exact Hdue |]. split; reflexivity. }
  split.
  { intros s ds. destruct (reports_sorted ds s) as [Hidx [Hnum Hall]].
    split; [exact Hidx |]. split; [exact Hnum |].
    eapply Forall_impl; [| exact Hall]. simpl. intros c [[_ Hc] _]. exact Hc. }
  split.
  { intros s inputs. apply images_saved_sorted. }
  exact reports_side_20.
Qed.

(** The report at 5 m on a side of 20 m, made on the first side of the
    default flight, fires image 1. *)
Lemma first_image_at_5 :
  on_progress 5 flight2 = Continue (fired flight2, Some 1%nat).
Proof.
  apply (proj1 (proj2 capture_scheduling) 5 flight2 eq_refl).
  due.
Defined.

Lemma reachable_flight2 : Reachable flight2.
Proof.
  eapply reachable_next; [| exact flight_step_2].
  eapply reachable_next; [| exact flight_step_1].
  exact reachable_default.
Qed.

Lemma distance_12_on_side_1 (s : State) :
  state_start_pos s = state_start_pos flight2 ->
  accumulated_yaw s = accumulated_yaw flight2 ->
  distance_traveled s (reading 10 0 0 (-12) 4) = 12.
Proof.
  intros Horigin Hyaw. unfold distance_traveled. rewrite Horigin, Hyaw.
  simpl. apply Rabs_value; [lra |].
  rewrite sin_0, cos_0. lra.
Qed.

(** Two iterations of the main loop on side 1 of the default flight, both
    with the drone 12 m along the side of 20 m: the first saves image 1
    (the 5 m capture), the second image 2 (the 10 m capture), and the
    drone is still on side 1. *)
Lemma two_iterations_at_12 :
  exists out1 out2,
    step flight2 (reading 10 0 0 (-12) 4) = Continue (fired flight2, out1)
    /\ saved_image out1 = Some 1%nat
    /\ step (fired flight2) (reading 10 0 0 (-12) 4)
       = Continue (fired (fired flight2), out2)
    /\ saved_image out2 = Some 2%nat.
Proof.
  assert (H1 : exists out,
             saved_image out = Some 1%nat
             /\ step flight2 (reading 10 0 0 (-12) 4)
                = Continue (fired flight2, out)).
  { apply step_side_continue; try reflexivity; try discriminate;
      rewrite (distance_12_on_side_1 flight2 eq_refl eq_refl).
    - apply on_progress_fire. due.
    - simpl. lra. }
  assert (H2 : exists out,
             saved_image out = Some 2%nat
             /\ step (fired flight2) (reading 10 0 0 (-12) 4)
                = Continue (fired (fired flight2), out)).
  { apply step_side_continue; try reflexivity; try discriminate;
      rewrite (distance_12_on_side_1 (fired flight2) eq_refl eq_refl).
    - apply on_progress_fire. due.
    - simpl. lra. }
  destruct H1 as [out1 [Hi1 Hs1]]. destruct H2 as [out2 [Hi2 Hs2]].
  exists out1, out2. repeat split; assumption.
Qed.

(** C3 (as stated, refuted). Two successive capture checks with the same
    distance can both fire.  On side 1 of the default flight, 20 m long,
    two successive iterations with the drone 12 m along the side save
    image 1 and then image 2: the first check fires the 5 m capture, the
    second the 10 m capture. *)
Lemma two_reports_fire_twice :
  Reachable flight2
  /\ distance_traveled flight2 (reading 10 0 0 (-12) 4) = 12
  /\ distance_traveled (fired flight2) (reading 10 0 0 (-12) 4) = 12
  /\ (exists out1 out2,
        step flight2 (reading 10 0 0 (-12) 4) = Continue (fired flight2, out1)
        /\ saved_image out1 = Some 1%nat
        /\ step (fired flight2) (reading 10 0 0 (-12) 4)
           = Continue (fired (fired flight2), out2)
        /\ saved_image out2 = Some 2%nat)
  /\ ~ (forall d s s1 s2 image1 image2,
          on_progress d s = Continue (s1, image1) ->
          on_progress d s1 = Continue (s2, image2) ->
          image2 = None).
Proof.
  split; [exact reachable_flight2 |].
  split; [exact (distance_12_on_side_1 flight2 eq_refl eq_refl) |].
  split; [exact (distance_12_on_side_1 (fired flight2) eq_refl eq_refl) |].
  split; [exact two_iterations_at_12 |].
  intros Hclaim.
  assert (H1 : on_progress 12 flight2 = Continue (fired flight2, Some 1%nat))
    by (apply on_progress_fire; due).
  assert (H2 : on_progress 12 (fired flight2)
               = Continue (fired (fired flight2), Some 2%nat))
    by (apply on_progress_fire; due).
  discriminate (Hclaim _ _ _ _ _ _ H1 H2).
Qed.

(** Two successive capture checks with the same distance, on a state with
    its four capture distances. *)
Lemma on_progress_again (d : R) (s : State) :
  List.length (capture_distances s) = IMAGES_PER_SIDE ->
  exists s1 image1 s2 image2,
    on_progress d s = Continue (s1, image1)
    /\ on_progress d s1 = Continue (s2, image2)
    /\ (image1 = None -> image2 = None /\ s2 = s)
    /\ (image2 <> None <-> capture_due d s /\ capture_due d (fired s)).
Proof.
  intros Hlen.
  destruct (on_progress_total d s Hlen) as [s1 [image1 H1]].
  assert (Hlen1 : List.length (capture_distances s1) = IMAGES_PER_SIDE).
  { destruct (on_progress_cases _ _ _ _ H1) as [[-> _] | [_ [-> _]]];
      exact Hlen. }
  destruct (on_progress_total d s1 Hlen1) as [s2 [image2 H2]].
  exists s1, image1, s2, image2.
  split; [exact H1 |]. split; [exact H2 |].
  destruct (on_progress_cases _ _ _ _ H1)
    as [[Hs1 Hi1] | [Hdue [Hs1 Hi1]]]; subst s1 image1.
  - rewrite H1 in H2. inversion H2; subst. split.
    + intros _. split; reflexivity.
    + split; [intros H; contradiction H; reflexivity |].
      intros [Hdue _]. rewrite (on_progress_fire _ _ Hdue) in H1.
      discriminate H1.
  - split; [intros H; discriminate H |].
    destruct (on_progress_cases _ _ _ _ H2)
      as [[Hs2 Hi2] | [Hdue2 [Hs2 Hi2]]]; subst s2 image2.
    + split; [intros H; contradiction H; reflexivity |].
      intros [_ Hdue2]. rewrite (on_progress_fire _ _ Hdue2) in H2.
      inversion H2 as [[Hs Hi]].
    + split; [intros _; split; assumption | intros _; discriminate].
Qed.

(** Two successive iterations of the main loop that start on a side and
    see the same distance travelled. *)
Lemma step_again (s : State) (sn1 sn2 : Sensors) (d : R) :
  Reachable s ->
  is_side (state s) = true ->
  distance_traveled s sn1 = d ->
  distance_traveled s sn2 = d ->
  exists s1 out1 s2 out2,
    step s sn1 = Continue (s1, out1)
    /\ step s1 sn2 = Continue (s2, out2)
    /\ (saved_image out1 = None -> saved_image out2 = None)
    /\ (d >= current_side_distance s ->
        state s1 <> state s /\ saved_image out2 = None)
    /\ (saved_image out2 <> None <->
        d < current_side_distance s
        /\ capture_due d s /\ capture_due d (fired s)).
Proof.
  intros Hreach Hside Hd1 Hd2.
  destruct (invariant_step_total s sn1 (reachable_invariant _ Hreach))
    as [[s1 [out1 H1]] | Hbreak];
    [| apply step_done in Hbreak; rewrite Hbreak in Hside; discriminate].
  pose proof (Reachable_step _ _ _ _ Hreach H1) as Hreach1.
  destruct (step_side_inv _ _ _ _ Hside H1)
    as [origin [p1 [Horigin [Hprog1 Hnext]]]].
  rewrite Hd1 in Hprog1, Hnext.
  pose proof (on_progress_state _ _ _ _ Hprog1) as Hsame.
  assert (Hdist : current_side_distance p1 = current_side_distance s)
    by (destruct (on_progress_cases _ _ _ _ Hprog1) as [[-> _] | [_ [-> _]]];
        reflexivity).
  rewrite Hdist in Hnext.
  assert (Hrun1 : state s1 <> DONE).
  { destruct Hnext as [[_ ->] | [_ ->]].
    - rewrite Hsame. destruct (state s); try discriminate Hside; discriminate.
    - unfold complete_side. rewrite Hsame.
      destruct (state s); try discriminate Hside; simpl; discriminate. }
  destruct (invariant_step_total s1 sn2 (reachable_invariant _ Hreach1))
    as [[s2 [out2 H2]] | Hbreak];
    [| apply step_done in Hbreak; contradiction].
  exists s1, out1, s2, out2.
  split; [exact H1 |]. split; [exact H2 |].
  destruct Hnext as [[Hlt Hs1] | [Hge Hs1]].
  - (* still on the side *)
    assert (Hside1 : is_side (state s1) = true)
      by (rewrite Hs1, Hsame; exact Hside).
    destruct (step_side_inv _ _ _ _ Hside1 H2)
      as [origin2 [p2 [_ [Hprog2 _]]]].
    assert (Hd : distance_traveled s1 sn2 = d).
    { rewrite <- Hd2. rewrite Hs1.
      destruct (on_progress_cases _ _ _ _ Hprog1) as [[-> _] | [_ [-> _]]];
        reflexivity. }
    rewrite Hd, Hs1 in Hprog2.
    destruct (on_progress_cases _ _ _ _ Hprog1)
      as [[Hp1 Hi1] | [Hdue [Hp1 Hi1]]]; rewrite Hp1 in Hprog2.
    + assert (Hnone : saved_image out2 = None).
      { rewrite Hp1 in Hprog1. congruence. }
      split; [intros _; exact Hnone |].
      split; [intros Hge; lra |].
      rewrite Hnone. split; [intros H; contradiction H; reflexivity |].
      intros [_ [Hdue _]]. rewrite Hp1 in Hprog1.
      rewrite (on_progress_fire _ _ Hdue) in Hprog1. congruence.
    + split; [intros Hnone; congruence |].
      split; [intros Hge; lra |].
      destruct (on_progress_cases _ _ _ _ Hprog2)
        as [[_ Hi2] | [Hdue2 [_ Hi2]]]; rewrite Hi2.
      * split; [intros H; contradiction H; reflexivity |].
        intros [_ [_ Hdue2]].
        rewrite (on_progress_fire _ _ Hdue2) in Hprog2. congruence.
      * split; [intros _; split; [exact Hlt | split; assumption]
               | intros _; discriminate].
  - (* the first iteration completes the side *)
    assert (Hmoved : state s1 <> state s).
    { rewrite Hs1. unfold complete_side. rewrite Hsame.
      destruct (state s); try discriminate Hside; simpl; discriminate. }
    assert (Hoff : is_side (state s1) = false).
    { rewrite Hs1. unfold complete_side. rewrite Hsame.
      destruct (state s); try discriminate Hside; reflexivity. }
    destruct (step_other_inv _ _ _ _ Hoff H2) as [Hnone _].
    split; [intros _; exact Hnone |].
    split; [intros _; split; [exact Hmoved | exact Hnone] |].
    rewrite Hnone. split; [intros H; contradiction H; reflexivity |].
    intros [Hlt _]. lra.
Qed.

(** C3 (amended). With the four capture distances in place, two successive
    capture checks with the same distance both return, each fires at most
    one capture, the second fires nothing when the first fired nothing,
    and the second fires exactly when the first fired and the distance
    also reaches the capture distance that follows.  In the main loop,
    for two successive iterations that start on a side and see the same
    distance travelled: the second saves nothing when the first saved
    nothing; when the distance has reached the side length the first
    iteration completes the side and the second saves nothing; and the
    second saves an image exactly when the distance is short of the side
    length, the first check fired and the distance also reaches the
    capture distance that follows. *)
Theorem second_report_same_distance :
  (forall d s,
      List.length (capture_distances s) = IMAGES_PER_SIDE ->
      exists s1 image1 s2 image2,
        on_progress d s = Continue (s1, image1)
        /\ on_progress d s1 = Continue (s2, image2)
        /\ (image1 = None -> image2 = None /\ s2 = s)
        /\ (image2 <> None <-> capture_due d s /\ capture_due d (fired s)))
  /\ (forall s sn1 sn2 d,
        Reachable s ->
        is_side (state s) = true ->
        distance_traveled s sn1 = d ->
        distance_traveled s sn2 = d ->
        exists s1 out1 s2 out2,
          step s sn1 = Continue (s1, out1)
          /\ step s1 sn2 = Continue (s2, out2)
          /\ (saved_image out1 = None -> saved_image out2 = None)
          /\ (d >= current_side_distance s ->
              state s1 <> state s /\ saved_image out2 = None)
          /\ (saved_image out2 <> None <->
              d < current_side_distance s
              /\ capture_due d s /\ capture_due d (fired s))).
Proof.
  split.
  - exact on_progress_again.
  - exact step_again.
Qed.

(** Two iterations at 12 m along side 1 of the default flight, and two at
    the end of the side, 20 m. *)
Lemma same_distance_at_12_and_20 :
  (exists s1 out1 s2 out2,
     step flight2 (reading 10 0 0 (-12) 4) = Continue (s1, out1)
     /\ step s1 (reading 10 0 0 (-12) 4) = Continue (s2, out2)
     /\ (saved_image out1 = None -> saved_image out2 = None)
     /\ (12 >= current_side_distance flight2 ->
         state s1 <> state flight2 /\ saved_image out2 = None)
     /\ (saved_image out2 <> None <->
         12 < current_side_distance flight2
         /\ capture_due 12 flight2 /\ capture_due 12 (fired flight2)))
  /\ (exists s1 out1 s2 out2,
        step flight2 (reading 30 0 0 (-20) 4) = Continue (s1, out1)
        /\ step s1 (reading 30 0 0 (-20) 4) = Continue (s2, out2)
        /\ (saved_image out1 = None -> saved_image out2 = None)
        /\ (20 >= current_side_distance flight2 ->
            state s1 <> state flight2 /\ saved_image out2 = None)
        /\ (saved_image out2 <> None <->
            20 < current_side_distance flight2
            /\ capture_due 20 flight2 /\ capture_due 20 (fired flight2))).
Proof.
  split.
  - apply (proj2 second_report_same_distance flight2
             (reading 10 0 0 (-12) 4) (reading 10 0 0 (-12) 4) 12).
    + exact reachable_flight2.
    + reflexivity.
    + exact (distance_12_on_side_1 flight2 eq_refl eq_refl).
    + exact (distance_12_on_side_1 flight2 eq_refl eq_refl).
  - apply (proj2 second_report_same_distance flight2
             (reading 30 0 0 (-20) 4) (reading 30 0 0 (-20) 4) 20).
    + exact reachable_flight2.
    + reflexivity.
    + exact distance_side_1.
    + exact distance_side_1.
Defined.

(* ------------------------------------------------------------------ *)
(** ** The claims on the state machine *)

(** C2. The main loop starts in [TAKEOFF]; every iteration that runs to
    its end keeps the flight state or moves it to its immediate successor
    in the chain TAKEOFF, STABILIZE, SIDE_1, TURN_1, SIDE_2, TURN_2,
    SIDE_3, TURN_3, SIDE_4, LAND, DONE; the loop is left exactly from
    [DONE], which has no successor; so along every run neighbouring flight
    states are equal or consecutive, and a flight state that has been left
    never comes back. *)
Theorem flight_state_order :
  (forall file initial_yaw s,
      main_init file initial_yaw = Continue s -> state s = TAKEOFF)
  /\ (forall s sn s' out,
        step s sn = Continue (s', out) -> advance (state s) (state s'))
  /\ (forall s sn, step s sn = Break <-> state s = DONE)
  /\ successor DONE = None
  /\ (forall s inputs, Sorted advance (phases s inputs))
  /\ (forall s inputs i j k p,
        (i <= j <= k)%nat ->
        nth_error (phases s inputs) i = Some p ->
        nth_error (phases s inputs) k = Some p ->
        nth_error (phases s inputs) j = Some p).
Proof.
  split; [exact main_init_takeoff |].
  split; [intros s sn s' out; apply step_advance |].
  split; [exact step_done |].
  split; [reflexivity |].
  split; [intros s inputs; apply phases_chain |].
  exact phases_no_return.
Qed.

(** The flight around the default building goes through the whole chain,
    one flight state per iteration. *)
Lemma default_flight_in_order :
  Sorted advance
    [TAKEOFF; STABILIZE; SIDE_1; TURN_1; SIDE_2; TURN_2; SIDE_3; TURN_3;
     SIDE_4; LAND; DONE].
Proof.
  rewrite <- flight_phases.
  apply (proj1 (proj2 (proj2 (proj2 (proj2 flight_state_order))))).
Defined.

(** C5 (as stated, refuted). After the first side of the default flight
    the drone is in [TURN_1], a state that is not a side, and
    [state_start_pos] still holds the position where side 1 began. *)
Lemma side_origin_kept_in_turn :
  Reachable flight3
  /\ state flight3 = TURN_1
  /\ state_start_pos flight3 = Some (mkPosition 0 0 4)
  /\ ~ (forall s, Reachable s ->
          (state_start_pos s <> None <-> is_side (state s) = true)).
Proof.
  split; [exact reachable_flight3 |].
  split; [reflexivity |]. split; [reflexivity |].
  intros Hclaim.
  destruct (Hclaim flight3 reachable_flight3) as [Hside _].
  assert (Habs : is_side (state flight3) = true)
    by (apply Hside; discriminate).
  discriminate Habs.
Qed.

(** An iteration that does not enter a side leaves [state_start_pos] as
    it is. *)
Lemma step_origin_kept (s s' : State) (sn : Sensors) (out : Outputs) :
  step s sn = Continue (s', out) ->
  is_side (state s) = true \/ is_side (state s') = false ->
  state_start_pos s' = state_start_pos s.
Proof.
  intros Hstep Hcase. destruct (is_side (state s)) eqn:Hside.
  - destruct (step_side_inv _ _ _ _ Hside Hstep)
      as [origin [s1 [Horigin [Hprog Hnext]]]].
    assert (H1 : state_start_pos s1 = state_start_pos s)
      by (destruct (on_progress_cases _ _ _ _ Hprog)
            as [[-> _] | [_ [-> _]]]; reflexivity).
    assert (H2 : state_start_pos s' = state_start_pos s1).
    { destruct Hnext as [[_ ->] | [_ ->]]; [reflexivity |].
      unfold complete_side. destruct (state s1); reflexivity. }
    rewrite H2. exact H1.
  - destruct Hcase as [Habs | Hoff]; [discriminate Habs |].
    pose proof (step_other_cases _ _ _ _ Hside Hstep) as Hcases.
    destruct (state s) eqn:Hphase; try contradiction;
      try discriminate Hside; simpl in Hcases;
      repeat match goal with
        | H : _ /\ _ |- _ => destruct H
        | H : _ \/ _ |- _ => destruct H
        | H : next_side _ _ _ _ _ |- _ => destruct H as [? [? ?]]
        | H : exists _, _ |- _ => destruct H as [? [? ?]]
        end; subst s'; try reflexivity;
      simpl in Hoff; discriminate Hoff.
Qed.

(** C5 (amended). In every reachable state [state_start_pos] is undefined
    exactly in [TAKEOFF] and [STABILIZE], so it is defined in every
    [SIDE_*] state; every iteration that enters a [SIDE_*] state sets it
    to the GPS position of that iteration; no iteration clears it; and
    every other iteration, during a side, at the end of a side and through
    the turns, the landing and [DONE], leaves it with the value it
    had. *)
Theorem side_origin_defined :
  (forall s,
      Reachable s ->
      (state_start_pos s = None <-> before_sides (state s) = true)
      /\ (is_side (state s) = true -> state_start_pos s <> None))
  /\ (forall s sn s' out,
        step s sn = Continue (s', out) ->
        is_side (state s) = false ->
        is_side (state s') = true ->
        state_start_pos s' = Some (gps_pos sn))
  /\ (forall s sn s' out,
        step s sn = Continue (s', out) ->
        state_start_pos s <> None ->
        state_start_pos s' <> None)
  /\ (forall s sn s' out,
        step s sn = Continue (s', out) ->
        is_side (state s) = true \/ is_side (state s') = false ->
        state_start_pos s' = state_start_pos s).
Proof.
  split; [| split; [| split]].
  - intros s Hreach. pose proof (reachable_invariant _ Hreach) as Hinv.
    split; [split |].
    + intros Hnone. destruct (before_sides (state s)) eqn:Hb; [reflexivity |].
      destruct (inv_after _ Hinv Hb) as [Hsome _]. contradiction.
    + intros Hb. apply (inv_before _ Hinv Hb).
    + intros Hside. apply (inv_after _ Hinv).
      destruct (state s); try discriminate Hside; reflexivity.
  - intros s sn s' out Hstep Hside Hside'.
    pose proof (step_other_cases _ _ _ _ Hside Hstep) as Hcases.
    destruct (state s) eqn:Hphase; try contradiction;
      try discriminate Hside; simpl in Hcases;
      repeat match goal with
        | H : _ /\ _ |- _ => destruct H
        | H : _ \/ _ |- _ => destruct H
        | H : next_side _ _ _ _ _ |- _ => destruct H as [? [? ?]]
        | H : exists _, _ |- _ => destruct H as [? [? ?]]
        end; subst s'; simpl in Hside'; rewrite ?Hphase in Hside';
      try discriminate Hside'; reflexivity.
  - intros s sn s' out Hstep Hsome.
    destruct (is_side (state s)) eqn:Hside.
    + destruct (step_side_inv _ _ _ _ Hside Hstep)
        as [origin [s1 [Horigin [Hprog Hnext]]]].
      assert (H1 : state_start_pos s1 = state_start_pos s)
        by (destruct (on_progress_cases _ _ _ _ Hprog)
              as [[-> _] | [_ [-> _]]]; reflexivity).
      assert (H2 : state_start_pos s' = state_start_pos s1).
      { destruct Hnext as [[_ ->] | [_ ->]]; [reflexivity |].
        unfold complete_side. destruct (state s1); reflexivity. }
      rewrite H2, H1. exact Hsome.
    + pose proof (step_other_cases _ _ _ _ Hside Hstep) as Hcases.
      destruct (state s) eqn:Hphase; try contradiction;
        try discriminate Hside; simpl in Hcases;
        repeat match goal with
          | H : _ /\ _ |- _ => destruct H
          | H : _ \/ _ |- _ => destruct H
          | H : next_side _ _ _ _ _ |- _ => destruct H as [? [? ?]]
          | H : exists _, _ |- _ => destruct H as [? [? ?]]
          end; subst s'; simpl; try assumption; discriminate.
  - intros s sn s' out. apply step_origin_kept.
Qed.

(** On the last side of the default flight the origin is the corner
    where the third turn ended. *)
Lemma origin_on_side_4 :
  (state_start_pos flight8 = None <-> before_sides (state flight8) = true)
  /\ (is_side (state flight8) = true -> state_start_pos flight8 <> None).
Proof.
  apply (proj1 side_origin_defined flight8). exact reachable_flight8.
Defined.

Lemma on_progress_keeps (d : R) (s s1 : State) (image : option nat) :
  on_progress d s = Continue (s1, image) ->
  accumulated_yaw s1 = accumulated_yaw s
  /\ current_side_distance s1 = current_side_distance s.
Proof.
  intros H. destruct (on_progress_cases _ _ _ _ H) as [[-> _] | [_ [-> _]]];
    split; reflexivity.
Qed.

Lemma step_yaw_target (s s' : State) (sn : Sensors) (out : Outputs) :
  step s sn = Continue (s', out) ->
  (side_completes s sn /\ state s <> SIDE_4 ->
   accumulated_yaw s' = accumulated_yaw s + PI / 2)
  /\ (~ (side_completes s sn /\ state s <> SIDE_4) ->
      accumulated_yaw s' = accumulated_yaw s).
Proof.
  intros Hstep. unfold side_completes.
  destruct (is_side (state s)) eqn:Hside.
  - destruct (step_side_inv _ _ _ _ Hside Hstep)
      as [origin [s1 [_ [Hprog Hnext]]]].
    destruct (on_progress_keeps _ _ _ _ Hprog) as [Hyaw Hdist].
    pose proof (on_progress_state _ _ _ _ Hprog) as Hphase.
    rewrite Hdist in Hnext.
    destruct Hnext as [[Hlt ->] | [Hge ->]].
    + split; [intros [[_ Hge] _]; lra |]. intros _. exact Hyaw.
    + unfold complete_side. rewrite Hphase.
      destruct (state s) eqn:Hs; try discriminate Hside; simpl;
        rewrite Hyaw; split;
        try (intros _; reflexivity);
        try (intros Hnot; exfalso; apply Hnot;
             split; [split; [reflexivity | exact Hge] | discriminate]).
      intros [_ Hne]. contradiction Hne. reflexivity.
  - split; [intros [[Habs _] _]; discriminate Habs |]. intros _.
    pose proof (step_other_cases _ _ _ _ Hside Hstep) as Hcases.
    destruct (state s) eqn:Hphase; try contradiction;
      try discriminate Hside; simpl in Hcases;
      repeat match goal with
        | H : _ /\ _ |- _ => destruct H
        | H : _ \/ _ |- _ => destruct H
        | H : next_side _ _ _ _ _ |- _ => destruct H as [? [? ?]]
        | H : exists _, _ |- _ => destruct H as [? [? ?]]
        end; subst s'; reflexivity.
Qed.

Lemma step_yaw_target_le (s s' : State) (sn : Sensors) (out : Outputs) :
  step s sn = Continue (s', out) ->
  accumulated_yaw s <= accumulated_yaw s'.
Proof.
  intros Hstep. pose proof PI_RGT_0 as Hpi.
  destruct (step_yaw_target _ _ _ _ Hstep) as [Hturn Hkeep].
  destruct (FlightState_eq_dec (state s) SIDE_4) as [Hfour | Hother].
  - rewrite Hkeep; [lra |]. intros [_ Hne]. contradiction.
  - destruct (is_side (state s)) eqn:Hside.
    + destruct (Rge_dec (distance_traveled s sn) (current_side_distance s))
        as [Hge | Hlt].
      * rewrite Hturn; [lra |]. unfold side_completes. rewrite Hside.
        split; [split; [reflexivity | exact Hge] | exact Hother].
      * rewrite Hkeep; [lra |]. intros [[_ Hge] _]. contradiction.
    + rewrite Hkeep; [lra |]. unfold side_completes. rewrite Hside.
      intros [[Habs _] _]. discriminate Habs.
Qed.

Lemma yaw_targets_sorted (inputs : list Sensors) : forall s,
  StronglySorted Rle (yaw_targets s inputs).
Proof.
  intros s. apply Sorted_StronglySorted.
  - intros x y z Hxy Hyz. lra.
  - revert s. unfold yaw_targets.
    induction inputs as [| sn rest IH]; intros s; simpl.
    + repeat constructor.
    + destruct (step s sn) as [[s' out] | |] eqn:Hstep;
        try solve [repeat constructor].
      simpl. constructor; [apply IH |]. constructor.
      exact (step_yaw_target_le _ _ _ _ Hstep).
Qed.

(** C9 (as stated, refuted). The iteration that completes the fourth side
    of the default flight goes to [LAND] and leaves [accumulated_yaw] as it
    is: a side completion that does not add a quarter turn. *)
Lemma yaw_target_kept_after_side_4 :
  Reachable flight8
  /\ side_completes flight8 (reading 99 (- PI / 2) 0 0 4)
  /\ (exists out,
        step flight8 (reading 99 (- PI / 2) 0 0 4) = Continue (flight9, out))
  /\ accumulated_yaw flight9 = accumulated_yaw flight8
  /\ ~ (forall s sn s' out,
          step s sn = Continue (s', out) ->
          side_completes s sn ->
          accumulated_yaw s' = accumulated_yaw s + PI / 2).
Proof.
  assert (Hdone : side_completes flight8 (reading 99 (- PI / 2) 0 0 4)).
  { split; [reflexivity |]. rewrite distance_side_4. simpl. lra. }
  split; [exact reachable_flight8 |].
  split; [exact Hdone |].
  split; [exact (drop_image flight_step_9) |].
  split; [reflexivity |].
  intros Hclaim. destruct flight_step_9 as [out [_ Hstep]].
  pose proof (Hclaim _ _ _ _ Hstep Hdone) as Habs.
  pose proof PI_RGT_0 as Hpi. simpl in Habs. lra.
Qed.

(** C9 (amended). From the start of the main loop on, [accumulated_yaw]
    never decreases; an iteration adds exactly [PI / 2] to it when it
    completes side 1, 2 or 3, and leaves it unchanged otherwise, the
    completion of side 4 included. *)
Theorem yaw_target_monotone :
  (forall s sn s' out,
      step s sn = Continue (s', out) ->
      accumulated_yaw s <= accumulated_yaw s'
      /\ (side_completes s sn /\ state s <> SIDE_4 ->
          accumulated_yaw s' = accumulated_yaw s + PI / 2)
      /\ (~ (side_completes s sn /\ state s <> SIDE_4) ->
          accumulated_yaw s' = accumulated_yaw s))
  /\ (forall s inputs, StronglySorted Rle (yaw_targets s inputs)).
Proof.
  split.
  - intros s sn s' out Hstep.
    split; [exact (step_yaw_target_le _ _ _ _ Hstep) |].
    exact (step_yaw_target _ _ _ _ Hstep).
  - intros s inputs. apply yaw_targets_sorted.
Qed.

(** The completion of side 1 of the default flight adds a quarter turn. *)
Lemma yaw_target_after_side_1 :
  accumulated_yaw flight3 = accumulated_yaw flight2 + PI / 2.
Proof.
  destruct flight_step_3 as [out [_ Hstep]].
  apply (proj1 (proj2 (proj1 yaw_target_monotone _ _ _ _ Hstep))).
  split; [| discriminate].
  split; [reflexivity |]. rewrite distance_side_1. simpl. lra.
Defined.

(** C10. In every reachable state at most four images have been taken on
    the current side; in a [SIDE_*] state the list of capture distances
    has four elements, so the element read under the guard
    [images_taken_this_side < IMAGES_PER_SIDE] exists; no iteration from a
    reachable state raises; and every iteration that enters a [SIDE_*]
    state does so through [begin_side], with the count at 0 and four
    capture distances. *)
Theorem capture_access_in_bounds :
  (forall s,
      Reachable s ->
      (images_taken_this_side s <= IMAGES_PER_SIDE)%nat
      /\ (is_side (state s) = true ->
          List.length (capture_distances s) = 4%nat
          /\ ((images_taken_this_side s < IMAGES_PER_SIDE)%nat ->
              exists threshold,
                nth_error (capture_distances s) (images_taken_this_side s)
                = Some threshold))
      /\ (forall sn e, step s sn <> Raise e))
  /\ (forall s sn s' out,
        step s sn = Continue (s', out) ->
        is_side (state s) = false ->
        is_side (state s') = true ->
        images_taken_this_side s' = 0%nat
        /\ exists side_dist,
             capture_distances s'
             = [side_dist * 1 / 4; side_dist * 2 / 4;
                side_dist * 3 / 4; side_dist * 4 / 4]).
Proof.
  split.
  - intros s Hreach. pose proof (reachable_invariant _ Hreach) as Hinv.
    split; [exact (inv_images_taken _ Hinv) |]. split.
    + intros Hside.
      assert (Hlen : List.length (capture_distances s) = IMAGES_PER_SIDE).
      { apply (inv_after _ Hinv).
        destruct (state s); try discriminate Hside; reflexivity. }
      split; [exact Hlen |]. intros Hlt.
      destruct (nth_error (capture_distances s) (images_taken_this_side s))
        as [thr |] eqn:Hnth; [exists thr; reflexivity |].
      apply nth_error_None in Hnth. lia.
    + intros sn e Hraise.
      destruct (invariant_step_total s sn Hinv) as [[s' [out Hc]] | Hb];
        rewrite Hraise in *; discriminate.
  - intros s sn s' out Hstep Hside Hside'.
    pose proof (step_other_cases _ _ _ _ Hside Hstep) as Hcases.
    destruct (state s) eqn:Hphase; try contradiction;
      try discriminate Hside; simpl in Hcases;
      repeat match goal with
        | H : _ /\ _ |- _ => destruct H
        | H : _ \/ _ |- _ => destruct H
        | H : next_side _ _ _ _ _ |- _ => destruct H as [? [? ?]]
        | H : exists _, _ |- _ => destruct H as [? [? ?]]
        end; subst s'; simpl in Hside'; rewrite ?Hphase in Hside';
      try discriminate Hside';
      (split; [reflexivity | eexists; apply begin_side_thresholds]).
Qed.

(** On the last side of the default flight the next capture distance is
    there to be read. *)
Lemma capture_access_side_4 :
  (images_taken_this_side flight8 <= IMAGES_PER_SIDE)%nat
  /\ (is_side (state flight8) = true ->
      List.length (capture_distances flight8) = 4%nat
      /\ ((images_taken_this_side flight8 < IMAGES_PER_SIDE)%nat ->
          exists threshold,
            nth_error (capture_distances flight8)
                      (images_taken_this_side flight8)
            = Some threshold))
  /\ (forall sn e, step flight8 sn <> Raise e).
Proof.
  apply (proj1 capture_access_in_bounds flight8). exact reachable_flight8.
Defined.

(* ================================================================== *)
(** * Further properties of the controller *)

(* ------------------------------------------------------------------ *)
(** ** The helpers *)

(** X1. [clamp] never returns less than [low]; with [low <= high] the
    result also stays at or below [high], values already between the
    bounds are returned unchanged and clamping twice is clamping once;
    with the bounds the wrong way round the result is [low], whatever the
    value. *)
Theorem clamp_bounds (value low high : R) :
  low <= clamp value low high
  /\ (low <= high -> clamp value low high <= high)
  /\ (low <= value <= high -> clamp value low high = value)
  /\ (low <= high ->
      clamp (clamp value low high) low high = clamp value low high)
  /\ (high < low -> clamp value low high = low).
Proof.
  assert (Hlow : low <= clamp value low high) by (unfold_clamp; lra).
  assert (Hhigh : low <= high -> clamp value low high <= high)
    by (intros H; unfold_clamp; lra).
  split; [exact Hlow |]. split; [exact Hhigh |].
  split; [apply clamp_inside |].
  split.
  - intros H. apply clamp_inside. split; [exact Hlow | exact (Hhigh H)].
  - intros H. unfold_clamp; lra.
Qed.

(** A roll of 1.7 rad is clamped to 1, and bounds given as (1, -1) give 1. *)
Lemma clamp_samples :
  clamp 1.7 (-1) 1 = 1 /\ clamp 0.2 (-1) 1 = 0.2 /\ clamp 0.2 1 (-1) = 1.
Proof.
  destruct (clamp_bounds 1.7 (-1) 1) as [Hlo [Hhi _]].
  destruct (clamp_bounds 0.2 (-1) 1) as [_ [_ [Hin _]]].
  destruct (clamp_bounds 0.2 1 (-1)) as [_ [_ [_ [_ Hinv]]]].
  split; [| split; [apply Hin; lra | apply Hinv; lra]].
  assert (Hle : clamp 1.7 (-1) 1 <= 1) by (apply Hhi; lra).
  assert (Hge : 1 <= clamp 1.7 (-1) 1) by (unfold_clamp; lra).
  lra.
Defined.

Lemma wrap_down_turns (x : R) :
  exists n : nat, wrap_down x = x - INR n * two_pi.
Proof.
  funelim (wrap_down x).
  - destruct H as [n Hn]. exists (S n). rewrite Hn, S_INR. ring.
  - exists 0%nat. simpl. ring.
Qed.

Lemma wrap_up_turns (x : R) :
  exists n : nat, wrap_up x = x + INR n * two_pi.
Proof.
  funelim (wrap_up x).
  - destruct H as [n Hn]. exists (S n). rewrite Hn, S_INR. ring.
  - exists 0%nat. simpl. ring.
Qed.

Lemma cos_sin_turns (x : R) (n : nat) :
  cos (x + INR n * two_pi) = cos x /\ sin (x + INR n * two_pi) = sin x.
Proof.
  unfold two_pi.
  replace (x + INR n * (2 * PI)) with (x + 2 * INR n * PI) by ring.
  split; [apply cos_period | apply sin_period].
Qed.

(** X2. [normalize_angle] changes its argument by a whole number of full
    turns only, so the direction is kept (same cosine and sine), and it
    returns its argument unchanged exactly when that lies between [-PI]
    and [PI]. *)
Theorem normalize_angle_same_direction (x : R) :
  (exists k : Z, normalize_angle x = x + IZR k * (2 * PI))
  /\ cos (normalize_angle x) = cos x
  /\ sin (normalize_angle x) = sin x
  /\ (normalize_angle x = x <-> - PI <= x <= PI).
Proof.
  unfold normalize_angle.
  destruct (wrap_down_turns x) as [n Hn].
  destruct (wrap_up_turns (wrap_down x)) as [m Hm].
  split; [| split; [| split]].
  - exists (Z.of_nat m - Z.of_nat n)%Z.
    rewrite Hm, Hn, minus_IZR, <- !INR_IZR_INZ. unfold two_pi. ring.
  - rewrite Hm. rewrite (proj1 (cos_sin_turns _ m)).
    rewrite <- (proj1 (cos_sin_turns (wrap_down x) n)).
    f_equal. rewrite Hn. ring.
  - rewrite Hm. rewrite (proj2 (cos_sin_turns _ m)).
    rewrite <- (proj2 (cos_sin_turns (wrap_down x) n)).
    f_equal. rewrite Hn. ring.
  - split.
    + intros Heq. rewrite <- Heq. apply normalize_angle_range.
    + apply normalize_angle_small.
Qed.

(* ------------------------------------------------------------------ *)
(** ** The frame transform *)

(** X3. The axes of [decompose_displacement] are orthonormal and oriented
    as its docstring says: a unit step along the heading is one unit
    forward and none to the right, and a unit step along
    [(sin h, - cos h)] is one unit to the right and none forward. *)
Theorem decompose_displacement_axes (heading : R) :
  decompose_displacement (cos heading) (sin heading) heading = (1, 0)
  /\ decompose_displacement (sin heading) (- cos heading) heading = (0, 1).
Proof.
  pose proof (sin2_cos2 heading) as Hunit. unfold Rsqr in Hunit.
  unfold decompose_displacement. split; f_equal; lra.
Qed.

(** X4. [decompose_displacement] loses nothing: the displacement is
    recovered from the forward and right components by
    [dx = forward cos h + right sin h] and
    [dy = forward sin h - right cos h]. *)
Theorem decompose_displacement_inverse (dx dy heading : R) :
  dx = fst (decompose_displacement dx dy heading) * cos heading
       + snd (decompose_displacement dx dy heading) * sin heading
  /\ dy = fst (decompose_displacement dx dy heading) * sin heading
          - snd (decompose_displacement dx dy heading) * cos heading.
Proof.
  pose proof (sin2_cos2 heading) as Hunit. unfold Rsqr in Hunit.
  simpl. set (c := cos heading) in *. set (sn := sin heading) in *.
  split.
  - replace ((dx * c + dy * sn) * c + (dx * sn - dy * c) * sn)
      with (dx * (sn * sn + c * c)) by ring.
    rewrite Hunit. ring.
  - replace ((dx * c + dy * sn) * sn - (dx * sn - dy * c) * c)
      with (dy * (sn * sn + c * c)) by ring.
    rewrite Hunit. ring.
Qed.

(* ------------------------------------------------------------------ *)
(** ** The motor mixing *)

Lemma vertical_input_bounded (target alt : R) :
  - K_VERTICAL_P <= vertical_input target alt <= K_VERTICAL_P.
Proof.
  unfold vertical_input, K_VERTICAL_P.
  set (c := clamp (target - alt + K_VERTICAL_OFFSET) (-1) 1).
  assert (Hc : -1 <= c <= 1) by (unfold c; unfold_clamp; lra).
  pose proof (cube_monotone (-1) c (proj1 Hc)) as Hlo.
  pose proof (cube_monotone c 1 (proj2 Hc)) as Hhi.
  lra.
Qed.

(** X5. The four motor commands determine the four control inputs: with
    the signs of the two counter-rotating motors undone, their sum is four
    times thrust plus vertical input, and the three signed sums are four
    times the roll, pitch and yaw inputs.  As the vertical input stays
    within [K_VERTICAL_P] of zero, the summed thrust command stays between
    262 and 286. *)
Theorem motor_control_mixing (target : R) (sn : Sensors) (d : Disturbance) :
  exists m0 m1 m2 m3,
    motor_control target sn d = [m0; m1; m2; m3]
    /\ m0 - m1 - m2 + m3
       = 4 * (K_VERTICAL_THRUST + vertical_input target (altitude sn))
    /\ - m0 - m1 + m2 + m3
       = 4 * (K_ROLL_P * clamp (roll sn) (-1) 1 + roll_velocity sn
              + roll_disturbance d)
    /\ m0 - m1 + m2 - m3
       = 4 * (K_PITCH_P * clamp (pitch sn) (-1) 1 + pitch_velocity sn
              + pitch_disturbance d)
    /\ - m0 - m1 - m2 - m3 = 4 * yaw_disturbance d
    /\ 262 <= m0 - m1 - m2 + m3 <= 286.
Proof.
  unfold motor_control. do 4 eexists. split; [reflexivity |].
  pose proof (vertical_input_bounded target (altitude sn)) as Hv.
  unfold K_VERTICAL_P, K_VERTICAL_THRUST in *.
  repeat split; lra.
Qed.

(* ------------------------------------------------------------------ *)
(** ** Bookkeeping of sides and images *)

Lemma distance_traveled_nonneg (s : State) (sn : Sensors) :
  0 <= distance_traveled s sn.
Proof.
  unfold distance_traveled. destruct (state_start_pos s); [| lra].
  apply Rabs_pos.
Qed.

(** A distance that completes a side has reached every capture distance
    of that side. *)
Lemma capture_due_at_end (d L : R) (s : State) :
  capture_distances s = thresholds L ->
  0 <= d -> d >= L ->
  (images_taken_this_side s < IMAGES_PER_SIDE)%nat ->
  capture_due d s.
Proof.
  intros Hcd Hpos Hge Hlt. split; [exact Hlt |]. rewrite Hcd.
  unfold IMAGES_PER_SIDE in Hlt.
  destruct (images_taken_this_side s) as [| [| [| [| n]]]]; [| | | | lia];
    simpl; eexists; (split; [reflexivity | lra]).
Qed.

Lemma bookkeeping_init (file : option Config) (initial_yaw : R) (s : State) :
  main_init file initial_yaw = Continue s -> Bookkeeping s.
Proof.
  unfold main_init, startup, getitem. intros H.
  destruct (lookup "building_length" (load_config file)) as [l |];
    simpl in H; [| discriminate].
  destruct (lookup "building_breadth" (load_config file)) as [b |];
    simpl in H; [| discriminate].
  destruct (lookup "building_height" (load_config file)); simpl in H;
    [| discriminate].
  inversion H; subst; clear H.
  constructor; simpl; try discriminate.
  - exists l, b. reflexivity.
  - intros _. split; reflexivity.
  - lia.
Qed.

(** Closes the fields of [Bookkeeping] on a state given by setters. *)
Ltac bookkeeping_fields Hbk :=
  destruct Hbk as [Hplan Hbefore Hside Hcount Htaken Hfinished Hturn];
  constructor; simpl in *;
  try assumption; try discriminate;
  try (intros _; lia).

Lemma bookkeeping_on_progress (d : R) (s s1 : State) (image : option nat) :
  is_side (state s) = true ->
  Bookkeeping s ->
  on_progress d s = Continue (s1, image) ->
  Bookkeeping s1.
Proof.
  intros Hphase Hbk Hprog.
  destruct (on_progress_cases _ _ _ _ Hprog)
    as [[-> _] | [[Hlt _] [-> _]]]; [assumption |].
  unfold IMAGES_PER_SIDE in Hlt. unfold fired.
  assert (Hb : before_sides (state s) = false)
    by (destruct (state s); try discriminate Hphase; reflexivity).
  assert (Hf : side_finished (state s) = false)
    by (destruct (state s); try discriminate Hphase; reflexivity).
  bookkeeping_fields Hbk.
  - rewrite Hb. discriminate.
  - intros _. specialize (Hcount Hb). lia.
  - lia.
Qed.

Lemma bookkeeping_complete_side (s : State) :
  is_side (state s) = true ->
  (1 <= images_taken_this_side s)%nat ->
  Bookkeeping s ->
  Bookkeeping (complete_side s).
Proof.
  intros Hphase Hone Hbk. unfold complete_side.
  destruct Hbk as [Hplan Hbefore Hside Hcount Htaken Hfinished Hturn].
  destruct (state s) eqn:Hs; try discriminate Hphase;
    simpl in Hside, Hcount;
    constructor; simpl; try assumption; try discriminate;
    try (intros _; apply Hside; reflexivity);
    try (intros _; specialize (Hcount eq_refl); lia);
    try (intros _; assumption);
    try (intros _; reflexivity).
Qed.

Lemma bookkeeping_begin_side (s : State) (sn : Sensors) (index : nat)
    (phase : FlightState) (side_dist : R) :
  Bookkeeping s ->
  nth_error (side_distances s) index = Some side_dist ->
  before_sides phase = false ->
  side_finished phase = false ->
  is_turn phase = false ->
  side_of phase = index ->
  (before_sides (state s) = true -> index = 0%nat) ->
  (before_sides (state s) = false ->
   side_finished (state s) = true /\ index = S (side_of (state s))) ->
  Bookkeeping
    (begin_side side_dist (gps_pos sn)
       (set_state phase (set_side_index index s))).
Proof.
  intros Hbk Hnth Hb Hf Ht Hidx Hfirst Hnext.
  destruct Hbk as [Hplan Hbefore Hside Hcount Htaken Hfinished Hturn].
  constructor; simpl; rewrite ?Hb, ?Hf, ?Ht; try discriminate.
  - exact Hplan.
  - intros _. split; [symmetry; exact Hidx |].
    split; [exact Hnth |].
    unfold thresholds. repeat (f_equal; try lra).
  - intros _. rewrite Hidx.
    destruct (before_sides (state s)) eqn:Hbs.
    + destruct (Hbefore eq_refl) as [Hic _]. rewrite (Hfirst eq_refl). lia.
    + destruct (Hnext eq_refl) as [Hfin ->].
      specialize (Hcount eq_refl). specialize (Hfinished Hfin). lia.
  - lia.
Qed.

Lemma bookkeeping_step (s s' : State) (sn : Sensors) (out : Outputs) :
  Bookkeeping s -> step s sn = Continue (s', out) -> Bookkeeping s'.
Proof.
  intros Hbk Hstep. destruct (is_side (state s)) eqn:Hphase.
  - destruct (step_side_inv _ _ _ _ Hphase Hstep)
      as [origin [s1 [_ [Hprog Hnext]]]].
    pose proof (bookkeeping_on_progress _ _ _ _ Hphase Hbk Hprog) as Hbk1.
    destruct Hnext as [[_ ->] | [Hge ->]]; [assumption |].
    assert (Hphase1 : is_side (state s1) = true)
      by (rewrite (on_progress_state _ _ _ _ Hprog); assumption).
    apply bookkeeping_complete_side; [assumption | | assumption].
    destruct (on_progress_keeps _ _ _ _ Hprog) as [_ Hdist].
    rewrite Hdist in Hge.
    assert (Hb : before_sides (state s) = false)
      by (destruct (state s); try discriminate Hphase; reflexivity).
    destruct (bk_side _ Hbk Hb) as [_ [_ Hcd]].
    destruct (Nat.lt_ge_cases (images_taken_this_side s) IMAGES_PER_SIDE)
      as [Hlt | Hfull].
    + pose proof (capture_due_at_end _ _ _ Hcd
                    (distance_traveled_nonneg s sn) Hge Hlt) as Hdue.
      rewrite (on_progress_fire _ _ Hdue) in Hprog.
      inversion Hprog; subst. simpl. lia.
    + destruct (on_progress_cases _ _ _ _ Hprog)
        as [[-> _] | [[Hlt _] _]]; [| lia].
      unfold IMAGES_PER_SIDE in Hfull. lia.
  - pose proof (step_other_cases _ _ _ _ Hphase Hstep) as Hcases.
    destruct (state s) eqn:Hs; try contradiction;
      try discriminate Hphase; simpl in Hcases;
      repeat match goal with
        | H : _ /\ _ |- _ => destruct H
        | H : _ \/ _ |- _ => destruct H
        | H : next_side _ _ _ _ _ |- _ => destruct H as [? [? ?]]
        | H : exists _, _ |- _ => destruct H as [? [? ?]]
        end; subst s'; try assumption;
      try (apply bookkeeping_begin_side; try assumption; try reflexivity;
           rewrite Hs; simpl;
           solve [ intros _; reflexivity
                 | discriminate
                 | intros _; split; reflexivity ]).
    + bookkeeping_fields Hbk; rewrite Hs in *; simpl in *;
        try discriminate; try (intros _; apply Hbefore; reflexivity).
    + bookkeeping_fields Hbk; rewrite Hs in *; simpl in *;
        try discriminate;
        try (intros _; apply Hside; reflexivity);
        try (intros _; apply Hcount; reflexivity);
        try (intros _; apply Hfinished; reflexivity).
    + bookkeeping_fields Hbk; rewrite Hs in *; simpl in *;
        try discriminate;
        try (intros _; apply Hside; reflexivity);
        try (intros _; apply Hcount; reflexivity);
        try (intros _; apply Hfinished; reflexivity).
Qed.

Lemma reachable_bookkeeping (s : State) : Reachable s -> Bookkeeping s.
Proof.
  induction 1 as [file initial_yaw s Hinit | s sn s' out _ IH Hstep].
  - exact (bookkeeping_init _ _ _ Hinit).
  - exact (bookkeeping_step _ _ _ _ IH Hstep).
Qed.

(** A property kept by every iteration holds after each iteration of a
    run. *)
Lemma states_forall (Q : State -> Prop) :
  (forall s sn s' out, Q s -> step s sn = Continue (s', out) -> Q s') ->
  forall inputs s, Q s -> Forall Q (states s inputs).
Proof.
  intros Hkeep. unfold states.
  induction inputs as [| sn rest IH]; intros s Hs; simpl; [constructor |].
  destruct (step s sn) as [[s' out] | |] eqn:Hstep; simpl; try constructor.
  - exact (Hkeep _ _ _ _ Hs Hstep).
  - apply IH. exact (Hkeep _ _ _ _ Hs Hstep).
Qed.

Lemma step_side_distances (s s' : State) (sn : Sensors) (out : Outputs) :
  step s sn = Continue (s', out) -> side_distances s' = side_distances s.
Proof.
  intros Hstep. destruct (is_side (state s)) eqn:Hphase.
  - destruct (step_side_inv _ _ _ _ Hphase Hstep)
      as [origin [s1 [_ [Hprog Hnext]]]].
    assert (H1 : side_distances s1 = side_distances s)
      by (destruct (on_progress_cases _ _ _ _ Hprog)
            as [[-> _] | [_ [-> _]]]; reflexivity).
    destruct Hnext as [[_ ->] | [_ ->]]; [exact H1 |].
    rewrite <- H1. unfold complete_side. destruct (state s1); reflexivity.
  - pose proof (step_other_cases _ _ _ _ Hphase Hstep) as Hcases.
    destruct (state s) eqn:Hs; try contradiction;
      try discriminate Hphase; simpl in Hcases;
      repeat match goal with
        | H : _ /\ _ |- _ => destruct H
        | H : _ \/ _ |- _ => destruct H
        | H : next_side _ _ _ _ _ |- _ => destruct H as [? [? ?]]
        | H : exists _, _ |- _ => destruct H as [? [? ?]]
        end; subst s'; reflexivity.
Qed.

(** X6. The plan is never modified, and from the first side on the side
    variables agree with it: [side_index] is the number of the side minus
    one, the distance to travel is the length on sides 1 and 3 and the
    breadth on sides 2 and 4, and the capture distances are the four
    quarters of the distance to travel. *)
Theorem side_bookkeeping :
  (forall s sn s' out,
      step s sn = Continue (s', out) -> side_distances s' = side_distances s)
  /\ (forall s,
        Reachable s ->
        exists l b,
          side_distances s = [l; b; l; b]
          /\ (before_sides (state s) = false ->
              side_index s = side_of (state s)
              /\ current_side_distance s
                 = (if Nat.even (side_of (state s)) then l else b)
              /\ capture_distances s = thresholds (current_side_distance s))).
Proof.
  split.
  - intros s sn s' out. apply step_side_distances.
  - intros s Hreach. pose proof (reachable_bookkeeping _ Hreach) as Hbk.
    destruct (bk_plan _ Hbk) as [l [b Hplan]]. exists l, b.
    split; [exact Hplan |]. intros Hb.
    destruct (bk_side _ Hbk Hb) as [Hidx [Hnth Hcd]].
    split; [exact Hidx |]. split; [| exact Hcd].
    rewrite Hidx, Hplan in Hnth.
    destruct (state s); try discriminate Hb; simpl in *;
      inversion Hnth; reflexivity.
Qed.

(** On side 4 of the default flight the distance to travel is the
    breadth, 10. *)
Lemma bookkeeping_on_side_4 :
  exists l b,
    side_distances flight8 = [l; b; l; b]
    /\ (before_sides (state flight8) = false ->
        side_index flight8 = side_of (state flight8)
        /\ current_side_distance flight8
           = (if Nat.even (side_of (state flight8)) then l else b)
        /\ capture_distances flight8
           = thresholds (current_side_distance flight8)).
Proof.
  apply (proj2 side_bookkeeping flight8). exact reachable_flight8.
Defined.



(** X8. No image is saved before the first side; from then on the image
    counter lies between the number of sides completed plus the images of
    the current side and four times that number plus the images of the
    current side.  So at most 16 images are saved, and at least 4 once the
    drone lands. *)
Theorem image_count_bounds (s : State) :
  Reachable s ->
  (before_sides (state s) = true -> image_counter s = 0%nat)
  /\ (before_sides (state s) = false ->
      (side_of (state s) + images_taken_this_side s <= image_counter s
       <= 4 * side_of (state s) + images_taken_this_side s)%nat)
  /\ (image_counter s <= 16)%nat
  /\ (state s = LAND \/ state s = DONE -> (4 <= image_counter s)%nat).
Proof.
  intros Hreach. pose proof (reachable_bookkeeping _ Hreach) as Hbk.
  destruct Hbk as [_ Hbefore _ Hcount Htaken Hfinished _].
  split; [intros Hb; apply (Hbefore Hb) |].
  split; [exact Hcount |].
  split.
  - destruct (before_sides (state s)) eqn:Hb.
    + destruct (Hbefore eq_refl) as [-> _]. lia.
    + specialize (Hcount eq_refl).
      assert (side_of (state s) <= 3)%nat by (destruct (state s); simpl; lia).
      lia.
  - intros Hland.
    assert (Hb : before_sides (state s) = false)
      by (destruct Hland as [-> | ->]; reflexivity).
    assert (Hf : side_finished (state s) = true)
      by (destruct Hland as [-> | ->]; reflexivity).
    assert (Hs : side_of (state s) = 3%nat)
      by (destruct Hland as [-> | ->]; reflexivity).
    specialize (Hcount Hb). specialize (Hfinished Hf). lia.
Qed.

(** On side 4 of the default flight three images have been saved. *)
Lemma image_count_side_4 :
  (before_sides (state flight8) = true -> image_counter flight8 = 0%nat)
  /\ (before_sides (state flight8) = false ->
      (side_of (state flight8) + images_taken_this_side flight8
       <= image_counter flight8
       <= 4 * side_of (state flight8) + images_taken_this_side flight8)%nat)
  /\ (image_counter flight8 <= 16)%nat
  /\ (state flight8 = LAND \/ state flight8 = DONE ->
      (4 <= image_counter flight8)%nat).
Proof.
  apply (image_count_bounds flight8). exact reachable_flight8.
Defined.

(* ------------------------------------------------------------------ *)
(** ** Heading and altitude targets along a run *)

Lemma states_reachable (s : State) (inputs : list Sensors) :
  Reachable s -> Forall Reachable (states s inputs).
Proof.
  apply states_forall. intros s1 sn s2 out H1 Hstep.
  exact (Reachable_step _ _ _ _ H1 Hstep).
Qed.

Lemma step_turns_done (s s' : State) (sn : Sensors) (out : Outputs) :
  step s sn = Continue (s', out) ->
  accumulated_yaw s' - INR (turns_done (state s')) * (PI / 2)
  = accumulated_yaw s - INR (turns_done (state s)) * (PI / 2).
Proof.
  intros Hstep. destruct (is_side (state s)) eqn:Hphase.
  - destruct (step_side_inv _ _ _ _ Hphase Hstep)
      as [origin [s1 [_ [Hprog Hnext]]]].
    destruct (on_progress_keeps _ _ _ _ Hprog) as [Hyaw _].
    pose proof (on_progress_state _ _ _ _ Hprog) as Hsame.
    destruct Hnext as [[_ ->] | [_ ->]]; [rewrite Hyaw, Hsame; reflexivity |].
    unfold complete_side. rewrite Hsame.
    destruct (state s); try discriminate Hphase; simpl; rewrite Hyaw; lra.
  - pose proof (step_other_cases _ _ _ _ Hphase Hstep) as Hcases.
    destruct (state s) eqn:Hs; try contradiction;
      try discriminate Hphase; simpl in Hcases;
      repeat match goal with
        | H : _ /\ _ |- _ => destruct H
        | H : _ \/ _ |- _ => destruct H
        | H : next_side _ _ _ _ _ |- _ => destruct H as [? [? ?]]
        | H : exists _, _ |- _ => destruct H as [? [? ?]]
        end; subst s'; simpl; rewrite ?Hs; reflexivity.
Qed.

(** X9. From the start of the main loop, the commanded heading is the
    initial yaw plus a quarter turn for each of the sides 1 to 3 that is
    complete: the initial yaw up to side 1, a quarter turn more from each
    turn on, and three quarter turns from the third turn to the end; and
    in every [TURN_*] state the target of the turn is that commanded
    heading. *)
Theorem heading_schedule (file : option Config) (initial_yaw : R)
    (s0 : State) (inputs : list Sensors) :
  main_init file initial_yaw = Continue s0 ->
  Forall (fun s =>
            accumulated_yaw s
            = initial_yaw + INR (turns_done (state s)) * (PI / 2)
            /\ (is_turn (state s) = true -> target_yaw s = accumulated_yaw s))
         (states s0 inputs).
Proof.
  intros Hinit.
  assert (Hyaw0 : accumulated_yaw s0 = initial_yaw
                  /\ state s0 = TAKEOFF).
  { split; [| exact (main_init_takeoff _ _ _ Hinit)].
    unfold main_init, startup, getitem in Hinit.
    destruct (lookup "building_length" (load_config file)); simpl in Hinit;
      [| discriminate].
    destruct (lookup "building_breadth" (load_config file)); simpl in Hinit;
      [| discriminate].
    destruct (lookup "building_height" (load_config file)); simpl in Hinit;
      [| discriminate].
    inversion Hinit; reflexivity. }
  destruct Hyaw0 as [Hyaw0 Hphase0].
  pose proof (states_reachable s0 inputs (Reachable_init _ _ _ Hinit)) as Hreach.
  assert (Hturns : Forall (fun s =>
            accumulated_yaw s - INR (turns_done (state s)) * (PI / 2)
            = initial_yaw) (states s0 inputs)).
  { apply states_forall.
    - intros s sn s' out Hs Hstep.
      rewrite (step_turns_done _ _ _ _ Hstep). exact Hs.
    - rewrite Hyaw0, Hphase0. simpl. lra. }
  rewrite Forall_forall in *. intros s Hin. split.
  - specialize (Hturns s Hin). simpl in Hturns. lra.
  - apply (bk_turn _ (reachable_bookkeeping _ (Hreach s Hin))).
Qed.

(** Along the default flight the heading goes from 0 to three quarter
    turns. *)
Lemma default_flight_headings :
  Forall (fun s =>
            accumulated_yaw s = 0 + INR (turns_done (state s)) * (PI / 2)
            /\ (is_turn (state s) = true -> target_yaw s = accumulated_yaw s))
         (states default_state flight_readings).
Proof.
  apply (heading_schedule None 0 default_state flight_readings).
  reflexivity.
Defined.

Lemma step_target_altitude (s s' : State) (sn : Sensors) (out : Outputs) :
  step s sn = Continue (s', out) ->
  (state s <> LAND -> target_altitude s' = target_altitude s)
  /\ (state s = LAND ->
      target_altitude s' = Rmax 0 (target_altitude s - 0.005)).
Proof.
  intros Hstep. destruct (is_side (state s)) eqn:Hphase.
  - destruct (step_side_inv _ _ _ _ Hphase Hstep)
      as [origin [s1 [_ [Hprog Hnext]]]].
    assert (H1 : target_altitude s1 = target_altitude s)
      by (destruct (on_progress_cases _ _ _ _ Hprog)
            as [[-> _] | [_ [-> _]]]; reflexivity).
    assert (H2 : target_altitude s' = target_altitude s1).
    { destruct Hnext as [[_ ->] | [_ ->]]; [reflexivity |].
      unfold complete_side. destruct (state s1); reflexivity. }
    split; [intros _; rewrite H2; exact H1 |].
    intros Hland. rewrite Hland in Hphase. discriminate Hphase.
  - pose proof (step_other_cases _ _ _ _ Hphase Hstep) as Hcases.
    destruct (state s) eqn:Hs; try contradiction;
      try discriminate Hphase; simpl in Hcases;
      repeat match goal with
        | H : _ /\ _ |- _ => destruct H
        | H : _ \/ _ |- _ => destruct H
        | H : next_side _ _ _ _ _ |- _ => destruct H as [? [? ?]]
        | H : exists _, _ |- _ => destruct H as [? [? ?]]
        end; subst s';
      (split; [intros Hne; try reflexivity; contradiction Hne; reflexivity
              | intros Heq; try discriminate Heq; reflexivity]).
Qed.

(** X10. The target altitude is only changed by the landing: after any
    number of iterations, a state that is not [LAND] or [DONE] still has
    the target altitude the run started with. *)
Theorem target_altitude_kept_until_landing (s : State)
    (inputs : list Sensors) :
  Forall (fun s' =>
            state s' <> LAND -> state s' <> DONE ->
            target_altitude s' = target_altitude s)
         (states s inputs).
Proof.
  assert (Hgen : Forall (fun s' =>
                   (rank (state s) <= rank (state s'))%nat
                   /\ ((rank (state s') < rank LAND)%nat ->
                       target_altitude s' = target_altitude s))
                 (states s inputs)).
  { apply states_forall.
    - intros s1 sn s2 out [Hrank Hkeep] Hstep.
      pose proof (advance_rank _ _ (step_advance _ _ _ _ Hstep)) as Hadv.
      split; [lia |]. intros Hlt.
      destruct (step_target_altitude _ _ _ _ Hstep) as [Hsame _].
      rewrite Hsame; [apply Hkeep; lia |].
      intros Hland. rewrite Hland in Hadv. lia.
    - split; [lia | reflexivity]. }
  eapply Forall_impl; [| exact Hgen]. simpl.
  intros s' [_ Hkeep] Hl Hd. apply Hkeep.
  destruct (state s'); simpl; try lia; contradiction.
Qed.

Lemma Rmax_0_shift (t a b : R) :
  0 <= b -> Rmax 0 (Rmax 0 (t - a) - b) = Rmax 0 (t - (a + b)).
Proof.
  intros Hb. destruct (Rle_lt_dec 0 (t - a)) as [Hpos | Hneg].
  - rewrite (Rmax_right 0 (t - a)) by lra. f_equal. lra.
  - rewrite (Rmax_left 0 (t - a)) by lra.
    rewrite !Rmax_left by lra. reflexivity.
Qed.

Lemma descent_from_land (inputs : list Sensors) :
  forall s k s',
    state s = LAND ->
    nth_error (states s inputs) k = Some s' ->
    target_altitude s' = Rmax 0 (target_altitude s - 0.005 * INR (S k)).
Proof.
  unfold states.
  induction inputs as [| sn rest IH]; intros s k s' Hland Hnth.
  - destruct k; discriminate Hnth.
  - simpl in Hnth.
    destruct (step s sn) as [[s1 out] | |] eqn:Hstep;
      try (destruct k; discriminate Hnth).
    destruct (step_target_altitude _ _ _ _ Hstep) as [_ Hdown].
    specialize (Hdown Hland).
    destruct k as [| k]; simpl in Hnth.
    + inversion Hnth; subst s'. rewrite Hdown. simpl INR.
      f_equal. lra.
    + assert (Hland1 : state s1 = LAND).
      { destruct (step_advance _ _ _ _ Hstep) as [Hsame | Hnext].
        - rewrite Hsame. exact Hland.
        - rewrite Hland in Hnext. inversion Hnext as [Hdone].
          destruct rest as [| sn' rest']; [destruct k; discriminate Hnth |].
          simpl in Hnth.
          assert (Hbreak : step s1 sn' = Break)
            by (apply step_done; symmetry; exact Hdone).
          rewrite Hbreak in Hnth. destruct k; discriminate Hnth. }
      rewrite (IH _ _ _ Hland1 Hnth), Hdown.
      replace (0.005 * INR (S (S k))) with (0.005 + 0.005 * INR (S k))
        by (rewrite (S_INR (S k)); ring).
      apply Rmax_0_shift.
      pose proof (pos_INR (S k)). lra.
Qed.

(** X11. While landing, each iteration lowers the target altitude by
    0.005 and never below 0: the state after the [k+1]-th iteration of a
    run started in [LAND] has target altitude
    [max 0 (target - 0.005 (k+1))]. *)
Theorem landing_descent (s : State) (inputs : list Sensors) (k : nat)
    (s' : State) :
  state s = LAND ->
  nth_error (states s inputs) k = Some s' ->
  target_altitude s' = Rmax 0 (target_altitude s - 0.005 * INR (S k))
  /\ 0 <= target_altitude s'.
Proof.
  intros Hland Hnth.
  rewrite (descent_from_land inputs s k s' Hland Hnth).
  split; [reflexivity | apply Rmax_l].
Qed.

Lemma states_cons (s s' : State) (sn : Sensors) (out : Outputs)
    (rest : list Sensors) :
  step s sn = Continue (s', out) ->
  states s (sn :: rest) = s' :: states s' rest.
Proof. intros Hstep. unfold states. simpl. rewrite Hstep. reflexivity. Qed.

(** Before the landing of the default flight the target altitude is 4. *)
Lemma target_altitude_default_flight :
  Forall (fun s' =>
            state s' <> LAND -> state s' <> DONE ->
            target_altitude s' = target_altitude default_state)
         (states default_state flight_readings).
Proof.
  apply (target_altitude_kept_until_landing default_state flight_readings).
Defined.

(** The first landing iteration of the default flight lowers the target
    altitude from 4 to 3.995. *)
Lemma first_landing_iteration :
  target_altitude flight10
  = Rmax 0 (target_altitude flight9 - 0.005 * INR 1)
  /\ 0 <= target_altitude flight10.
Proof.
  apply (landing_descent flight9 [reading 120 (- PI / 2) 0 0 0.2] 0 flight10).
  - reflexivity.
  - destruct flight_step_10 as [out Hstep].
    rewrite (states_cons _ _ _ _ _ Hstep). reflexivity.
Defined.

(* ------------------------------------------------------------------ *)
(** ** Image numbers *)

(** X12. The images saved during a run are numbered consecutively from
    the image counter plus one, without gaps. *)
Theorem images_saved_consecutive (inputs : list Sensors) (s : State) :
  images_saved s inputs
  = seq (S (image_counter s)) (List.length (images_saved s inputs)).
Proof.
  revert s. unfold images_saved.
  induction inputs as [| sn rest IH]; intros s; simpl; [reflexivity |].
  destruct (step s sn) as [[s' out] | |] eqn:Hstep; simpl;
    try reflexivity.
  destruct (step_image_counter _ _ _ _ Hstep) as [[-> Hc] | [-> Hc]];
    simpl; rewrite (IH s'), Hc.
  - rewrite length_seq. reflexivity.
  - rewrite length_seq. simpl. rewrite Nat.add_1_r. reflexivity.
Qed.

(* ------------------------------------------------------------------ *)
(** ** Names of the image files *)

Lemma string_length_append (a b : string) :
  String.length (a ++ b)%string = (String.length a + String.length b)%nat.
Proof. induction a as [| c a IH]; simpl; [reflexivity | rewrite IH; reflexivity]. Qed.

Lemma string_append_cancel_r (a b c : string) :
  (a ++ c)%string = (b ++ c)%string -> a = b.
Proof.
  revert b. induction a as [| x a IH]; intros [| y b] H; simpl in H.
  - reflexivity.
  - exfalso. apply (f_equal String.length) in H. simpl in H.
    rewrite string_length_append in H. lia.
  - exfalso. apply (f_equal String.length) in H. simpl in H.
    rewrite string_length_append in H. lia.
  - inversion H as [[Hx Hrest]]. f_equal. apply IH. exact Hrest.
Qed.

Lemma number_of_zeros (k : nat) (digits : string) :
  number_of (zeros k ++ digits)%string = number_of digits.
Proof.
  unfold number_of. induction k as [| k IH]; simpl; [reflexivity |].
  destruct (NilEmpty.uint_of_string (zeros k ++ digits)%string) as [d |];
    destruct (NilEmpty.uint_of_string digits) as [d' |];
    simpl in *; try discriminate; try reflexivity; exact IH.
Qed.

Lemma number_of_format (n : nat) : number_of (format_04d n) = Some n.
Proof.
  unfold format_04d. rewrite number_of_zeros.
  unfold number_of, str. rewrite NilEmpty.usu. simpl.
  f_equal. apply Unsigned.of_to.
Qed.

Lemma format_04d_width :
  forallb (fun n => (String.length (format_04d n) =? 4)%nat) (seq 0 10000)
  = true.
Proof. vm_compute. reflexivity. Qed.

(** X14. Image files never collide: different image numbers give
    different file names, and the number can be read back from the digits
    of the name; the digits are at least four, and exactly four for every
    number below 10000, so that the name has 16 characters. *)
Theorem capture_name_injective :
  (forall n m, capture_name n = capture_name m -> n = m)
  /\ (forall n, number_of (format_04d n) = Some n)
  /\ (forall n, (4 <= String.length (format_04d n))%nat)
  /\ (forall n,
        (n < 10000)%nat ->
        String.length (format_04d n) = 4%nat
        /\ String.length (capture_name n) = 16%nat).
Proof.
  assert (Hfour : forall n, (n < 10000)%nat ->
                            String.length (format_04d n) = 4%nat).
  { intros n Hn. pose proof format_04d_width as Hall.
    rewrite forallb_forall in Hall.
    apply Nat.eqb_eq, Hall, in_seq. lia. }
  split; [| split; [exact number_of_format | split]].
  - intros n m Heq. unfold capture_name in Heq. simpl in Heq.
    inversion Heq as [Hrest].
    apply string_append_cancel_r in Hrest.
    pose proof (number_of_format n) as Hn. rewrite Hrest in Hn.
    rewrite number_of_format in Hn. inversion Hn. reflexivity.
  - intros n. unfold format_04d. rewrite string_length_append.
    assert (Hz : forall k, String.length (zeros k) = k)
      by (induction k as [| k IH]; simpl; [| rewrite IH]; reflexivity).
    rewrite Hz. lia.
  - intros n Hn. split; [exact (Hfour n Hn) |].
    unfold capture_name. simpl. rewrite string_length_append.
    rewrite (Hfour n Hn). reflexivity.
Qed.

(** The names of images 7 and 16. *)
Lemma image_names_7_16 :
  capture_name 7 = "capture_0007.jpg"%string
  /\ capture_name 16 = "capture_0016.jpg"%string
  /\ String.length (capture_name 16) = 16%nat.
Proof.
  split; [reflexivity |]. split; [reflexivity |].
  apply (proj2 (proj2 (proj2 capture_name_injective)) 16%nat).
  apply Nat.ltb_lt. vm_compute. reflexivity.
Defined.

(* ------------------------------------------------------------------ *)
(** ** Disturbances and transitions *)

Lemma yaw_correction_bounded (x : R) :
  Rabs (2 * normalize_angle x) <= 2 * PI.
Proof.
  pose proof (normalize_angle_range x) as [Hlo Hhi].
  apply Rabs_le. lra.
Qed.

(** X15. The disturbances handed to the motor control: the roll
    disturbance is [- STRAFE_SPEED] on the sides and zero elsewhere, the
    pitch disturbance is zero outside the sides, the yaw disturbance is
    zero outside sides and turns and never exceeds a full turn in size,
    and no image is saved outside the sides. *)
Theorem disturbances_by_state (s s' : State) (sn : Sensors)
    (d : Disturbance) (image : option nat) :
  state_machine s sn = Continue (s', d, image) ->
  roll_disturbance d = (if is_side (state s) then - STRAFE_SPEED else 0)
  /\ (is_side (state s) = false -> pitch_disturbance d = 0 /\ image = None)
  /\ (is_side (state s) = false -> is_turn (state s) = false ->
      yaw_disturbance d = 0)
  /\ Rabs (yaw_disturbance d) <= 2 * PI.
Proof.
  intros Hsm. pose proof PI_RGT_0 as Hpi.
  assert (Hzero : Rabs 0 <= 2 * PI) by (rewrite Rabs_R0; lra).
  destruct (is_side (state s)) eqn:Hphase.
  - rewrite (state_machine_side _ _ Hphase) in Hsm.
    destruct (state_start_pos s) as [origin |]; simpl in Hsm;
      [| discriminate].
    match type of Hsm with
    | context [on_progress ?x s] =>
        destruct (on_progress x s) as [[s1 image1] | |]
    end; simpl in Hsm; try discriminate.
    inversion Hsm; subst; simpl.
    split; [reflexivity |]. split; [discriminate |].
    split; [discriminate | apply yaw_correction_bounded].
  - unfold state_machine in Hsm.
    destruct (state s) eqn:Hs; try discriminate Hphase; simpl in Hsm;
      split_outcome Hsm;
      try (unfold complete_turn in Hsm; rewrite Hs in Hsm; simpl in Hsm;
           split_outcome Hsm);
      inversion Hsm; subst; simpl;
      (split; [reflexivity |]); (split; [intros _; split; reflexivity |]);
      (split; [intros _ Hturn; try discriminate Hturn; reflexivity |]);
      first [exact Hzero | apply yaw_correction_bounded].
Qed.

(** The iteration that ends side 1 of the default flight strafes. *)
Lemma disturbances_side_1 :
  exists s' d image,
    state_machine flight2 (reading 30 0 0 (-20) 4) = Continue (s', d, image)
    /\ roll_disturbance d = - STRAFE_SPEED.
Proof.
  destruct flight_step_3 as [out [_ Hstep]]. unfold step in Hstep.
  destruct (state_machine flight2 (reading 30 0 0 (-20) 4))
    as [[[s' d] image] | |] eqn:Hsm; simpl in Hstep; try discriminate.
  exists s', d, image. split; [reflexivity |].
  exact (proj1 (disturbances_by_state _ _ _ _ _ Hsm)).
Defined.

Lemma successor_differs (p q : FlightState) : successor p = Some q -> q <> p.
Proof. destruct p; simpl; intros H; inversion H; discriminate. Qed.

Lemma step_exit_condition (s s' : State) (sn : Sensors) (out : Outputs) :
  step s sn = Continue (s', out) ->
  (state s' <> state s <-> exit_condition s sn).
Proof.
  intros Hstep. destruct (is_side (state s)) eqn:Hphase.
  - destruct (step_side_inv _ _ _ _ Hphase Hstep)
      as [origin [s1 [_ [Hprog Hnext]]]].
    destruct (on_progress_keeps _ _ _ _ Hprog) as [_ Hdist].
    pose proof (on_progress_state _ _ _ _ Hprog) as Hsame.
    rewrite Hdist in Hnext.
    assert (Hexit : exit_condition s sn
                    <-> distance_traveled s sn >= current_side_distance s).
    { unfold exit_condition.
      destruct (state s); try discriminate Hphase; reflexivity. }
    rewrite Hexit.
    destruct Hnext as [[Hlt ->] | [Hge ->]].
    + split; [intros Hne; contradiction | intros Hge; lra].
    + split; [intros _; exact Hge |]. intros _.
      rewrite <- Hsame. apply successor_differs, complete_side_advance.
      rewrite Hsame. exact Hphase.
  - unfold step, state_machine in Hstep. unfold exit_condition.
    destruct (state s) eqn:Hs; try discriminate Hphase; simpl in Hstep;
      split_outcome Hstep;
      try (unfold complete_turn in Hstep; rewrite Hs in Hstep;
           simpl in Hstep; split_outcome Hstep);
      inversion Hstep; subst; simpl; rewrite ?Hs;
      (split; [intros Hne; try assumption; contradiction Hne; reflexivity
              | intros Hexit; try discriminate; try contradiction; try lra]).
Qed.

(** X16. An iteration leaves the current flight state exactly when the
    exit test of that state holds for the current reading: altitude above
    target minus 0.3 in [TAKEOFF], more than [STABILIZE_TIME] since the
    start of [STABILIZE], the side distance travelled on a side, a yaw
    error below [ANGLE_TOLERANCE] in a turn, altitude below 0.3 in
    [LAND]. *)
Theorem state_left_iff_exit_condition (s s' : State) (sn : Sensors)
    (out : Outputs) :
  step s sn = Continue (s', out) ->
  (state s' <> state s <-> exit_condition s sn).
Proof. apply step_exit_condition. Qed.

(** The iteration of the default flight that reaches the altitude leaves
    [TAKEOFF]. *)
Lemma takeoff_left_at_altitude :
  state flight1 <> state default_state
  <-> exit_condition default_state (reading 2 0 0 0 4).
Proof.
  destruct flight_step_1 as [out Hstep].
  exact (state_left_iff_exit_condition _ _ _ _ Hstep).
Defined.

(** An iteration that stays in the flight state leaves its exit test as
    it was. *)
Lemma exit_condition_stable (s s' : State) (sn : Sensors) (out : Outputs) :
  step s sn = Continue (s', out) ->
  state s' = state s ->
  forall sn', exit_condition s' sn' <-> exit_condition s sn'.
Proof.
  intros Hstep Hstay sn'. destruct (is_side (state s)) eqn:Hphase.
  - destruct (step_side_inv _ _ _ _ Hphase Hstep)
      as [origin [s1 [_ [Hprog Hnext]]]].
    pose proof (on_progress_state _ _ _ _ Hprog) as Hsame.
    destruct Hnext as [[_ ->] | [_ ->]].
    + destruct (on_progress_cases _ _ _ _ Hprog) as [[-> _] | [_ [-> _]]];
        reflexivity.
    + exfalso. revert Hstay. rewrite <- Hsame.
      apply successor_differs, complete_side_advance.
      rewrite Hsame. exact Hphase.
  - pose proof (step_other_cases _ _ _ _ Hphase Hstep) as Hcases.
    destruct (state s) eqn:Hs; try contradiction;
      try discriminate Hphase; simpl in Hcases;
      repeat match goal with
        | H : _ /\ _ |- _ => destruct H
        | H : _ \/ _ |- _ => destruct H
        | H : next_side _ _ _ _ _ |- _ => destruct H as [? [? ?]]
        | H : exists _, _ |- _ => destruct H as [? [? ?]]
        end; subst s'; try reflexivity;
      try (simpl in Hstay; discriminate Hstay);
      unfold exit_condition; simpl; rewrite Hs; reflexivity.
Qed.

Lemma phases_stay (inputs : list Sensors) : forall s,
  Reachable s ->
  state s <> DONE ->
  Forall (fun sn => ~ exit_condition s sn) inputs ->
  phases s inputs = repeat (state s) (S (List.length inputs)).
Proof.
  induction inputs as [| sn rest IH]; intros s Hreach Hrun Hall;
    [reflexivity |].
  inversion Hall as [| sn0 rest0 Hnot Hrest]; subst.
  rewrite phases_cons.
  destruct (invariant_step_total s sn (reachable_invariant _ Hreach))
    as [[s' [out Hstep]] | Hbreak].
  - rewrite Hstep.
    assert (Hstay : state s' = state s).
    { destruct (FlightState_eq_dec (state s') (state s)) as [Heq | Hne];
        [exact Heq |].
      exfalso. apply Hnot. apply (step_exit_condition _ _ _ _ Hstep). exact Hne. }
    rewrite (IH s').
    + rewrite Hstay. reflexivity.
    + exact (Reachable_step _ _ _ _ Hreach Hstep).
    + rewrite Hstay. exact Hrun.
    + eapply Forall_impl; [| exact Hrest]. simpl. intros sn' Hn Hexit.
      apply Hn. apply (exit_condition_stable _ _ _ _ Hstep Hstay). exact Hexit.
  - apply step_done in Hbreak. contradiction.
Qed.

(** X17. There is no timeout: from a reachable state that is not [DONE],
    as long as no reading satisfies the exit test of the current flight
    state, the run consumes every reading and stays in that flight
    state. *)
Theorem no_timeout (s : State) (inputs : list Sensors) :
  Reachable s ->
  state s <> DONE ->
  Forall (fun sn => ~ exit_condition s sn) inputs ->
  phases s inputs = repeat (state s) (S (List.length inputs)).
Proof. intros Hreach Hrun Hall. exact (phases_stay inputs s Hreach Hrun Hall). Qed.

(** Three readings below the target altitude leave the drone in
    [TAKEOFF]. *)
Lemma takeoff_below_altitude :
  phases default_state
    [reading 1 0 0 0 0; reading 2 0 0 0 1; reading 3 0 0 0 3.5]
  = [TAKEOFF; TAKEOFF; TAKEOFF; TAKEOFF].
Proof.
  apply (no_timeout default_state
           [reading 1 0 0 0 0; reading 2 0 0 0 1; reading 3 0 0 0 3.5]).
  - exact reachable_default.
  - discriminate.
  - repeat constructor; unfold exit_condition, altitude; simpl; lra.
Defined.





(* ------------------------------------------------------------------ *)
(** ** Start-up with an incomplete configuration *)

(** X19. A configuration file that lacks one of the three dimensions is
    not completed from the defaults: start-up raises [KeyError].  The
    defaults are used only when the file itself is absent. *)
Theorem main_init_missing_key (cfg : Config) (initial_yaw : R) :
  lookup "building_length" cfg = None
  \/ lookup "building_breadth" cfg = None
  \/ lookup "building_height" cfg = None ->
  main_init (Some cfg) initial_yaw = Raise KeyError.
Proof.
  intros Hmissing. unfold main_init, startup, getitem. simpl load_config.
  destruct (lookup "building_length" cfg) as [l |]; simpl; [| reflexivity].
  destruct (lookup "building_breadth" cfg) as [b |]; simpl; [| reflexivity].
  destruct (lookup "building_height" cfg) as [h |]; simpl; [| reflexivity].
  destruct Hmissing as [H | [H | H]]; discriminate H.
Qed.

(** A file with the length and the breadth but no height. *)
Lemma main_init_no_height :
  main_init (Some [("building_length"%string, 30);
                   ("building_breadth"%string, 12)]) 0
  = Raise KeyError.
Proof.
  apply main_init_missing_key. right. right. reflexivity.
Defined.

(* ------------------------------------------------------------------ *)
(** ** Capture distances that were jumped over *)

Lemma thresholds_nth (L : R) (k : nat) :
  (k < 4)%nat -> nth_error (thresholds L) k = Some (L * INR (S k) / 4).
Proof.
  intros Hk. destruct k as [| [| [| [| k]]]]; [| | | | lia];
    simpl; f_equal; lra.
Qed.

Lemma images_saved_cons (s s' : State) (sn : Sensors) (out : Outputs)
    (rest : list Sensors) :
  step s sn = Continue (s', out) ->
  images_saved s (sn :: rest)
  = match saved_image out with
    | Some n => n :: images_saved s' rest
    | None => images_saved s' rest
    end.
Proof.
  intros Hstep. unfold images_saved. simpl. rewrite Hstep. simpl.
  destruct (saved_image out); reflexivity.
Qed.

(** Iterations on a side whose distance travelled stays between the
    [m]-th and the [m+1]-th capture distance. *)
Lemma images_saved_between (m : nat) (inputs : list Sensors) : forall s,
  Reachable s ->
  is_side (state s) = true ->
  (images_taken_this_side s <= m <= 3)%nat ->
  Forall (fun sn =>
            current_side_distance s * INR m / 4 <= distance_traveled s sn
            /\ distance_traveled s sn
               < current_side_distance s * INR (S m) / 4) inputs ->
  images_saved s inputs
  = seq (S (image_counter s))
        (Nat.min (List.length inputs) (m - images_taken_this_side s)).
Proof.
  induction inputs as [| sn rest IH]; intros s Hreach Hside Hm Hall;
    [reflexivity |].
  inversion Hall as [| sn0 rest0 [Hlo Hhi] Hrest]; subst.
  pose proof (reachable_bookkeeping _ Hreach) as Hbk.
  assert (Hb : before_sides (state s) = false)
    by (destruct (state s); try discriminate Hside; reflexivity).
  destruct (bk_side _ Hbk Hb) as [_ [_ Hcd]].
  set (L := current_side_distance s) in *.
  set (d := distance_traveled s sn) in *.
  assert (Hd : 0 <= d) by apply distance_traveled_nonneg.
  assert (Hm1 : 1 <= INR (S m) <= 4).
  { split.
    - replace 1 with (INR 1) by reflexivity. apply le_INR. lia.
    - replace 4 with (INR 4) by (simpl; lra). apply le_INR. lia. }
  assert (HL : 0 < L) by nra.
  assert (Hshort : d < L) by nra.
  destruct (invariant_step_total s sn (reachable_invariant _ Hreach))
    as [[s' [out Hstep]] | Hbreak];
    [| apply step_done in Hbreak; rewrite Hbreak in Hside; discriminate].
  rewrite (images_saved_cons _ _ _ _ _ Hstep).
  destruct (step_side_inv _ _ _ _ Hside Hstep)
    as [origin [s1 [_ [Hprog Hnext]]]].
  fold d in Hprog, Hnext.
  assert (Hdist : current_side_distance s1 = L)
    by (destruct (on_progress_cases _ _ _ _ Hprog) as [[-> _] | [_ [-> _]]];
        reflexivity).
  rewrite Hdist in Hnext.
  destruct Hnext as [[_ Hs'] | [Hge _]]; [| lra].
  pose proof (Reachable_step _ _ _ _ Hreach Hstep) as Hreach'.
  destruct (Nat.eq_dec (images_taken_this_side s) m) as [Hfull | Hless].
  - (* the next capture distance is still ahead *)
    assert (Hidle : ~ capture_due d s).
    { intros [_ [thr [Hnth Hge]]]. rewrite Hcd, Hfull in Hnth.
      rewrite thresholds_nth in Hnth by lia.
      assert (Hthr : thr = L * INR (S m) / 4) by congruence.
      rewrite Hthr in Hge. lra. }
    assert (Hlen : List.length (capture_distances s) = IMAGES_PER_SIDE)
      by (rewrite Hcd; reflexivity).
    assert (Hres : s1 = s /\ saved_image out = None)
      by (rewrite (on_progress_idle _ _ Hlen Hidle) in Hprog;
          split; congruence).
    destruct Hres as [Hs1 Himage]. rewrite Hs1 in Hs'. rewrite Himage, Hs'.
    rewrite (IH s Hreach Hside Hm Hrest).
    rewrite Hfull, Nat.sub_diag, !Nat.min_0_r. reflexivity.
  - (* a capture distance already passed is caught up *)
    assert (Hdue : capture_due d s).
    { split; [unfold IMAGES_PER_SIDE; lia |].
      exists (L * INR (S (images_taken_this_side s)) / 4). split.
      - rewrite Hcd. apply thresholds_nth. lia.
      - assert (INR (S (images_taken_this_side s)) <= INR m)
          by (apply le_INR; lia).
        nra. }
    assert (Hres : s1 = fired s
                   /\ saved_image out = Some (image_counter s + 1)%nat)
      by (rewrite (on_progress_fire _ _ Hdue) in Hprog; split; congruence).
    destruct Hres as [Hs1 Himage]. rewrite Hs1 in Hs'.
    rewrite Hs' in Hreach'. rewrite Himage, Hs'.
    rewrite (IH (fired s) Hreach' Hside); [| simpl; lia | exact Hrest].
    simpl image_counter. simpl images_taken_this_side. simpl List.length.
    replace (m - images_taken_this_side s)%nat
      with (S (m - (images_taken_this_side s + 1)))%nat by lia.
    rewrite <- Nat.succ_min_distr. simpl seq.
    rewrite Nat.add_1_r. reflexivity.
Qed.

(** X13. Capture distances that were jumped over are caught up one per
    iteration.  On a side, from a reachable state with at most [m <= 3]
    images taken, iterations whose distance travelled stays between the
    [m]-th and the [m+1]-th capture distance save one image each, numbered
    consecutively, until [m] images are taken on the side, and none after
    that; the drone stays on the side throughout. *)
Theorem captures_catch_up (s : State) (inputs : list Sensors) (m : nat) :
  Reachable s ->
  is_side (state s) = true ->
  (images_taken_this_side s <= m <= 3)%nat ->
  Forall (fun sn =>
            current_side_distance s * INR m / 4 <= distance_traveled s sn
            /\ distance_traveled s sn
               < current_side_distance s * INR (S m) / 4) inputs ->
  images_saved s inputs
  = seq (S (image_counter s))
        (Nat.min (List.length inputs) (m - images_taken_this_side s))
  /\ phases s inputs = repeat (state s) (S (List.length inputs)).
Proof.
  intros Hreach Hside Hm Hall.
  split; [exact (images_saved_between m inputs s Hreach Hside Hm Hall) |].
  apply phases_stay; [exact Hreach | |].
  - destruct (state s); try discriminate Hside; discriminate.
  - eapply Forall_impl; [| exact Hall]. cbv beta.
    intros sn [Hlo Hhi] Hexit.
    assert (Hge : distance_traveled s sn >= current_side_distance s).
    { unfold exit_condition in Hexit.
      destruct (state s); try discriminate Hside; exact Hexit. }
    pose proof (distance_traveled_nonneg s sn) as Hd.
    assert (Hm1 : 1 <= INR (S m) <= 4).
    { split.
      - replace 1 with (INR 1) by reflexivity. apply le_INR. lia.
      - replace 4 with (INR 4) by (simpl; lra). apply le_INR. lia. }
    set (L := current_side_distance s) in *.
    set (d := distance_traveled s sn) in *.
    assert (HL : 0 < L) by nra.
    assert (Hshort : d < L) by nra.
    lra.
Qed.

(** Three iterations at 12 m along side 1 of the default flight, 20 m
    long: 12 m lies between the second and the third capture distance, so
    images 1 and 2 are saved and the drone is still on side 1. *)
Lemma catch_up_at_12 :
  images_saved flight2
    [reading 10 0 0 (-12) 4; reading 11 0 0 (-12) 4; reading 12 0 0 (-12) 4]
  = [1%nat; 2%nat]
  /\ phases flight2
       [reading 10 0 0 (-12) 4; reading 11 0 0 (-12) 4; reading 12 0 0 (-12) 4]
     = [SIDE_1; SIDE_1; SIDE_1; SIDE_1].
Proof.
  assert (Hd : forall t, distance_traveled flight2 (reading t 0 0 (-12) 4) = 12).
  { intros t. unfold distance_traveled. simpl. apply Rabs_value; [lra |].
    rewrite sin_0, cos_0. lra. }
  apply (captures_catch_up flight2
           [reading 10 0 0 (-12) 4; reading 11 0 0 (-12) 4;
            reading 12 0 0 (-12) 4] 2).
  - exact reachable_flight2.
  - reflexivity.
  - simpl. lia.
  - repeat constructor; rewrite Hd; simpl; lra.
Defined.
